(** * GitTektonResourcesRenovater: a shallow embedding of
      controllers/git_tekton_resources_renovater.go

    The controller discovers the GitHub App installations, intersects the
    repositories they cover with the Components known to the cluster,
    splits the matched installations into bounded batches and creates one
    Secret / ConfigMap / Job triple per batch.

    Go strings are byte strings and are modelled by [string]; Go [int] and
    [int64] values are modelled by [Z]; a Go [map[string]string] is a
    [gmap string string]; slices are lists.  Calls that leave the process
    (cluster client, GitHub, environment, clock) are fields of an [Env]
    record and every such call is recorded in a trace. *)

From Stdlib Require Import ZArith Ascii String List Lia.
From stdpp Require Import base decidable option list gmap strings pretty.

Local Open Scope Z_scope.

(** ** The parts of the Go standard library the controller calls *)

Module strings.

(** [strings.HasSuffix]:
    [len(s) >= len(suffix) && s[len(s)-len(suffix):] == suffix]. *)
Definition HasSuffix (s suffix : string) : bool :=
  (String.length suffix <=? String.length s)%nat
  && bool_decide
       (String.substring (String.length s - String.length suffix)
                         (String.length suffix) s = suffix).

(** [strings.TrimSuffix]: [s[:len(s)-len(suffix)]] when [s] ends with
    [suffix], [s] itself otherwise.  At most one copy is removed. *)
Definition TrimSuffix (s suffix : string) : string :=
  if HasSuffix s suffix
  then String.substring 0 (String.length s - String.length suffix) s
  else s.

(** [strings.Join]. *)
Fixpoint Join (elems : list string) (sep : string) : string :=
  match elems with
  | [] => ""
  | [e] => e
  | e :: rest => e +:+ sep +:+ Join rest sep
  end.

End strings.

Definition isDigit (c : ascii) : bool :=
  (48 <=? Z.of_N (N_of_ascii c)) && (Z.of_N (N_of_ascii c) <=? 57).

Definition dquote : string := String "034"%char "".
Definition newline : string := String "010"%char "".
Definition tab : string := String "009"%char "".

Module fmt.

(** [fmt.Sprint] of an [int], which is also what the verb [%d] prints:
    the decimal digits, with a leading minus sign for negative values. *)
Definition Sprint (n : Z) : string := pretty n.

Inductive operand :=
| Int (n : Z)
| Str (s : string).

(** [fmt.Sprintf] for the verbs the controller uses, [%d] and [%s] (and the
    literal [%%]).  Text outside a verb is copied; a verb consumes the next
    operand.  A verb without an operand prints Go's [%!v(MISSING)] marker,
    an operand of the other kind prints Go's bad-verb marker.  Every call
    of the controller passes exactly as many operands as its format has
    verbs, so operands left over at the end of the format (Go's
    [%!(EXTRA ...)] marker) are not modelled. *)
Fixpoint Sprintf (format : string) (a : list operand) : string :=
  match format with
  | "" => ""
  | String "%" (String verb rest as after) =>
      if bool_decide (verb = "d"%char) || bool_decide (verb = "s"%char) then
        match a with
        | [] => "%!" +:+ String verb "(MISSING)" +:+ Sprintf rest a
        | Int n :: a' =>
            (if bool_decide (verb = "d"%char) then Sprint n
             else "%!s(int=" +:+ Sprint n +:+ ")") +:+ Sprintf rest a'
        | Str s :: a' =>
            (if bool_decide (verb = "s"%char) then s
             else "%!d(string=" +:+ s +:+ ")") +:+ Sprintf rest a'
        end
      else if bool_decide (verb = "%"%char) then String "%" (Sprintf rest a)
      else String "%" (Sprintf after a)
  | String c rest => String c (Sprintf rest a)
  end.

End fmt.

Module strconv.

Inductive NumErr := ErrSyntax | ErrRange.

Definition maxUint64 : Z := 2 ^ 64 - 1.

(** The digit loop of [strconv.ParseUint(s, 10, 64)] on a non-empty
    string: [n] is the [uint64] accumulator, additions wrap modulo 2^64
    and the wrap is what the test [n1 < n] detects. *)
Fixpoint ParseUint_loop (s : string) (n : Z) : Z * option NumErr :=
  match s with
  | "" => (n, None)
  | String c rest =>
      if isDigit c then
        let d := Z.of_N (N_of_ascii c) - 48 in
        if maxUint64 / 10 + 1 <=? n then (maxUint64, Some ErrRange)
        else
          let n := (n * 10) mod 2 ^ 64 in
          let n1 := (n + d) mod 2 ^ 64 in
          if (n1 <? n) || (maxUint64 <? n1) then (maxUint64, Some ErrRange)
          else ParseUint_loop rest n1
      else (0, Some ErrSyntax)
  end.

Definition ParseUint (s : string) : Z * option NumErr :=
  match s with
  | "" => (0, Some ErrSyntax)
  | _ => ParseUint_loop s 0
  end.

(** [strconv.ParseInt(s, 10, 64)]. *)
Definition ParseInt (s : string) : Z * option NumErr :=
  match s with
  | "" => (0, Some ErrSyntax)
  | String c0 rest =>
      let neg := bool_decide (c0 = "-"%char) in
      let s' := if bool_decide (c0 = "+"%char) || neg then rest else s in
      match ParseUint s' with
      | (_, Some ErrSyntax) => (0, Some ErrSyntax)
      | (un, _) =>
          let cutoff := 2 ^ 63 in
          if negb neg && (cutoff <=? un) then (cutoff - 1, Some ErrRange)
          else if neg && (cutoff <? un) then (- cutoff, Some ErrRange)
          else (if neg then - un else un, None)
      end
  end.

(** [strconv.Atoi] on a 64-bit platform: a fast path for strings of
    fewer than 19 bytes, [ParseInt(s, 10, 0)] otherwise. *)
Fixpoint Atoi_fast (s : string) (n : Z) : option Z :=
  match s with
  | "" => Some n
  | String ch rest =>
      if isDigit ch then Atoi_fast rest (n * 10 + (Z.of_N (N_of_ascii ch) - 48))
      else None
  end.

Definition Atoi (s : string) : Z * option NumErr :=
  let sLen := String.length s in
  if (0 <? sLen)%nat && (sLen <? 19)%nat then
    match s with
    | "" => (0, Some ErrSyntax)
    | String c0 rest =>
        let signed := bool_decide (c0 = "-"%char) || bool_decide (c0 = "+"%char) in
        let s' := if signed then rest else s in
        if signed && (String.length s' <? 1)%nat then (0, Some ErrSyntax)
        else
          match Atoi_fast s' 0 with
          | None => (0, Some ErrSyntax)
          | Some n => (if bool_decide (c0 = "-"%char) then - n else n, None)
          end
    end
  else ParseInt s.

End strconv.

Module regexp.
(** [regexp.MustCompile(`^\d{1,2}$`).MatchString]: in Go's RE2 syntax
    [\d] is an ASCII digit and, without the [m] flag, [^] and [$] match
    only at the beginning and at the end of the text. *)
Definition MatchString_1_2_digits (s : string) : bool :=
  match s with
  | String a "" => isDigit a
  | String a (String b "") => isDigit a && isDigit b
  | _ => false
  end.
End regexp.

Module utf8.

Definition byte (c : ascii) : Z := Z.of_N (N_of_ascii c).

Definition between (lo hi : Z) (c : ascii) : bool :=
  (lo <=? byte c) && (byte c <=? hi).

(** [utf8.DecodeRuneInString] reduced to what [encoding/json] asks of it:
    the number of bytes of the well-formed UTF-8 sequence at the head of
    [s], or [None] where Go returns [(RuneError, 1)].  The accepted ranges
    are those of the package's [first] and [acceptRanges] tables. *)
Definition DecodeSize (s : string) : option nat :=
  match s with
  | String b0 rest =>
      let second lo hi :=
        match rest with String b1 _ => between lo hi b1 | _ => false end in
      let third :=
        match rest with String _ (String b2 _) => between 128 191 b2 | _ => false end in
      let fourth :=
        match rest with
        | String _ (String _ (String b3 _)) => between 128 191 b3
        | _ => false
        end in
      if between 0 127 b0 then Some 1%nat
      else if between 194 223 b0 then
        if second 128 191 then Some 2%nat else None
      else if between 224 239 b0 then
        let lo := if byte b0 =? 224 then 160 else 128 in
        let hi := if byte b0 =? 237 then 159 else 191 in
        if second lo hi && third then Some 3%nat else None
      else if between 240 244 b0 then
        let lo := if byte b0 =? 240 then 144 else 128 in
        let hi := if byte b0 =? 244 then 143 else 191 in
        if second lo hi && third && fourth then Some 4%nat else None
      else None
  | "" => None
  end.

End utf8.

Module json.

Definition hex (n : Z) : ascii :=
  ascii_of_N (Z.to_N (if n <? 10 then 48 + n else 87 + n)).

(** [htmlSafeSet]: the ASCII bytes that are copied unescaped when HTML
    escaping is on, which is what [json.Marshal] uses. *)
Definition htmlSafe (b : ascii) : bool :=
  utf8.between 32 127 b
  && negb (bool_decide (b = "034"%char)) && negb (bool_decide (b = "&"%char))
  && negb (bool_decide (b = "<"%char)) && negb (bool_decide (b = ">"%char))
  && negb (bool_decide (b = "\"%char)).

(** The escape written for an ASCII byte outside [htmlSafeSet]. *)
Definition escapeByte (b : ascii) : string :=
  String "\"
    (if bool_decide (b = "\"%char) || bool_decide (b = "034"%char) then String b ""
     else if bool_decide (b = "010"%char) then "n"
     else if bool_decide (b = "013"%char) then "r"
     else if bool_decide (b = "009"%char) then "t"
     else "u00" +:+ String (hex (utf8.byte b / 16)) (String (hex (utf8.byte b mod 16)) "")).

(** The body of [encodeState.string] between the two quotes (Go releases
    before 1.22, which have no short escapes for backspace and form feed):
    safe ASCII is copied, other ASCII is escaped, a byte that does not
    start well-formed UTF-8 becomes [\ufffd], U+2028 and U+2029 are
    escaped and every other multi-byte sequence is copied. *)
Fixpoint encodeStringBody (s : string) : string :=
  match s with
  | "" => ""
  | String b0 rest =>
      if utf8.between 0 127 b0 then
        (if htmlSafe b0 then String b0 "" else escapeByte b0) +:+ encodeStringBody rest
      else
        match utf8.DecodeSize s, rest with
        | Some 2%nat, String b1 r1 =>
            String b0 (String b1 (encodeStringBody r1))
        | Some 3%nat, String b1 (String b2 r2) =>
            if (utf8.byte b0 =? 226) && (utf8.byte b1 =? 128)
               && ((utf8.byte b2 =? 168) || (utf8.byte b2 =? 169))
            then "\u202" +:+ String (hex (utf8.byte b2 - 160)) (encodeStringBody r2)
            else String b0 (String b1 (String b2 (encodeStringBody r2)))
        | Some 4%nat, String b1 (String b2 (String b3 r3)) =>
            String b0 (String b1 (String b2 (String b3 (encodeStringBody r3))))
        | _, _ => "\ufffd" +:+ encodeStringBody rest
        end
  end.

Definition encodeString (s : string) : string :=
  dquote +:+ encodeStringBody s +:+ dquote.

(** A slice that is not nil is encoded as a JSON array. *)
Definition encodeArray {A} (encodeElem : A -> string) (l : list A) : string :=
  "[" +:+ strings.Join (encodeElem <$> l) "," +:+ "]".

End json.

(** ** Data model *)

(** [github.Repository] of go-github: the fields are pointers and are read
    through getters that return the empty string for a nil field. *)
Record github_Repository := {
  HTMLURL : option string;
  FullName : option string;
}.

Definition GetHTMLURL (r : github_Repository) : string := default "" (HTMLURL r).
Definition GetFullName (r : github_Repository) : string := default "" (FullName r).

(** [github.ApplicationInstallation] as returned by [GetInstallations]. *)
Record ApplicationInstallation := {
  ID : Z;
  Token : string;
  Repositories : list github_Repository;
}.

(** [Component.Spec.Source.GitSource], a pointer that may be nil. *)
Record GitSource := {
  URL : string;
  Revision : string;
}.

Record Component := {
  Spec_Source_GitSource : option GitSource;
}.

Record renovateRepository := {
  Repository : string;
  BaseBranches : list string;
}.

Record installationStruct := {
  id : Z;
  token : string;
  repositories : list renovateRepository;
}.

Global Instance renovateRepository_eq_dec : EqDecision renovateRepository.
Proof. solve_decision. Defined.
Global Instance installationStruct_eq_dec : EqDecision installationStruct.
Proof. solve_decision. Defined.

(** ** Reconcile, lines 145-151: the tracked-repository map *)

Definition normalizeUrl (url : string) : string :=
  strings.TrimSuffix (strings.TrimSuffix url ".git") "/".

Definition buildComponentUrlToBranchMap (items : list Component) : gmap string string :=
  fold_left
    (fun componentUrlToBranchMap component =>
       match Spec_Source_GitSource component with
       | Some gitSource =>
           let url := normalizeUrl (URL gitSource) in
           <[url := Revision gitSource]> componentUrlToBranchMap
       | None => componentUrlToBranchMap
       end)
    items ∅.

(** ** Reconcile, lines 154-182: the matcher *)

Definition matchRepositories (componentUrlToBranchMap : gmap string string)
    (repos : list github_Repository) : list renovateRepository :=
  fold_left
    (fun repositories repository =>
       match componentUrlToBranchMap !! GetHTMLURL repository with
       | None => repositories
       | Some branch =>
           let baseBranches := [] in
           let baseBranches :=
             if decide (branch = "") then baseBranches else baseBranches ++ [branch] in
           repositories ++
             [ {| Repository := GetFullName repository;
                  BaseBranches := baseBranches |} ]
       end)
    repos [].

Definition matchInstallations (componentUrlToBranchMap : gmap string string)
    (githubAppInstallations : list ApplicationInstallation) : list installationStruct :=
  fold_left
    (fun installationsToUpdate githubAppInstallation =>
       let repositories :=
         matchRepositories componentUrlToBranchMap (Repositories githubAppInstallation) in
       if (length repositories =? 0)%nat then installationsToUpdate
       else installationsToUpdate ++
              [ {| id := ID githubAppInstallation;
                   token := Token githubAppInstallation;
                   repositories := repositories |} ])
    githubAppInstallations [].


(** ** Constants of the controller *)

Definition RenovateConfigName : string := "renovate-config".
Definition RenovateImageEnvName : string := "RENOVATE_IMAGE".
Definition DefaultRenovateImageUrl : string := "quay.io/redhat-appstudio/renovate:34.154-slim".
Definition DefaultRenovateMatchPattern : string := "^quay.io/redhat-appstudio-tekton-catalog/".
Definition RenovateMatchPatternEnvName : string := "RENOVATE_PATTERN".

(** [time.Duration] counts nanoseconds. *)
Definition Second : Z := 1000000000.
Definition Hour : Z := 3600 * Second.
Definition TimeToLiveOfJob : Z := 24 * Hour.
Definition NextReconcile : Z := 10 * Hour.
Definition InstallationsPerJob : Z := 20.
Definition InstallationsPerJobEnvName : string := "RENOVATE_INSTALLATIONS_PER_JOB".

(** Conversion to [int32]: the low 32 bits, read as a signed number. *)
Definition int32 (n : Z) : Z := (n + 2 ^ 31) mod 2 ^ 32 - 2 ^ 31.

(** [Duration.Seconds] is [float64(d/Second) + float64(d%Second)/1e9];
    the conversion of that value to an integer truncates, so for the
    durations used here (whole seconds, far below 2^53) the result is the
    quotient. *)
Definition Seconds (d : Z) : Z := Z.quot d Second.

(** ** Cluster objects

    Only the fields the controller writes are listed, and
    [VolumeMount_ReadOnly], which it leaves at its zero value. *)

Record ObjectMeta := {
  meta_Name : string;
  meta_Namespace : string;
  meta_OwnerReferences : list string;
}.

Record Secret := {
  Secret_ObjectMeta : ObjectMeta;
  Secret_StringData : gmap string string;
}.

Record ConfigMap := {
  ConfigMap_ObjectMeta : ObjectMeta;
  ConfigMap_Data : gmap string string;
}.

Record Volume := {
  Volume_Name : string;
  Volume_ConfigMap : option string;
}.

Record EnvFromSource := {
  EnvFrom_Prefix : string;
  EnvFrom_SecretRef : option string;
}.

Record VolumeMount := {
  VolumeMount_Name : string;
  VolumeMount_ReadOnly : bool;
  VolumeMount_MountPath : string;
}.

Record SecurityContext := {
  Capabilities_Drop : list string;
  RunAsNonRoot : option bool;
  AllowPrivilegeEscalation : option bool;
  SeccompProfile_Type : option string;
}.

Record Container := {
  Container_Name : string;
  Container_Image : string;
  Container_EnvFrom : list EnvFromSource;
  Container_Command : list string;
  Container_VolumeMounts : list VolumeMount;
  Container_SecurityContext : option SecurityContext;
}.

Record PodSpec := {
  Volumes : list Volume;
  Containers : list Container;
  RestartPolicy : string;
}.

Record JobSpec := {
  BackoffLimit : option Z;
  TTLSecondsAfterFinished : option Z;
  Template_Spec : PodSpec;
}.

Record Job := {
  Job_ObjectMeta : ObjectMeta;
  Job_Spec : JobSpec;
}.

Inductive Object :=
| OSecret (secret : Secret)
| OConfigMap (configMap : ConfigMap)
| OJob (job : Job).

(** ** Errors, results and the calls that leave the process *)

Inductive error :=
| APIError (isNotFound : bool) (message : string)
| NumError (func num : string) (err : strconv.NumErr).

(** [errors.IsNotFound]. *)
Definition IsNotFound (err : error) : bool :=
  match err with
  | APIError b _ => b
  | NumError _ _ _ => false
  end.

(** [ctrl.Result]. *)
Record Result := {
  Requeue : bool;
  RequeueAfter : Z;
}.

Definition Result_zero : Result := {| Requeue := false; RequeueAfter := 0 |}.

Inductive Event :=
| Call_Client_Get (namespace name : string)
| Call_EventRecorder_Event (eventtype reason : string) (err : error)
| Call_Log_Error (err : error) (msg : string)
| Call_Log_Info (msg : string)
| Call_GetInstallations (githubAppId : Z) (privateKey : string)
| Call_Client_List
| Call_Client_Create (obj : Object)
| Call_Client_Update (obj : Object).

Definition Trace := list Event.

(** What the controller's surroundings answer.  The constants come from
    other files and packages; the answer of a call may depend on everything
    that happened before it, which is the trace at the time of the call. *)
Record Env := {
  buildServiceNamespaceName : string;
  PipelinesAsCodeSecretName : string;
  PipelinesAsCode_githubAppIdKey : string;
  PipelinesAsCode_githubPrivateKey : string;
  IsPaCApplicationConfigured : string -> gmap string string -> bool;
  getRandomString : Trace -> nat -> string;
  time_Now_Unix : Trace -> Z;
  os_Getenv : string -> string;
  client_Get : Trace -> string -> string -> gmap string string + error;
  github_GetInstallations :
    Trace -> Z -> string -> list ApplicationInstallation * string + error;
  client_List : Trace -> list Component + error;
  client_Create : Trace -> Object -> option error;
  client_Update : Trace -> Object -> option error;
  controllerutil_SetOwnerReference : Job -> ObjectMeta -> ObjectMeta + error;
}.

(** A computation reads and extends the trace; [None] stands for a run
    that does not come back. *)
Definition M (A : Type) : Type := Trace -> option (A * Trace).

Definition ret {A} (a : A) : M A := fun tr => Some (a, tr).

Definition bind {A B} (m : M A) (f : A -> M B) : M B := fun tr =>
  match m tr with
  | Some (a, tr') => f a tr'
  | None => None
  end.

Notation "x <- m ;; k" := (bind m (fun x => k))
  (at level 100, m at next level, right associativity).
Notation "m ;; k" := (bind m (fun _ => k))
  (at level 100, right associativity).

Definition call {A} (answer : Trace -> A) (e : Event) : M A :=
  fun tr => Some (answer tr, tr ++ [e]).

Definition peek {A} (answer : Trace -> A) : M A :=
  fun tr => Some (answer tr, tr).

(** ** generateConfigJS *)

(** [json.Marshal] of a [renovateRepository]: the field [baseBranches] is
    tagged [omitempty] and is left out when the slice has no element. *)
Definition marshalRenovateRepository (r : renovateRepository) : string :=
  "{" +:+ dquote +:+ "repository" +:+ dquote +:+ ":" +:+ json.encodeString (Repository r) +:+
  (if (length (BaseBranches r) =? 0)%nat then ""
   else "," +:+ dquote +:+ "baseBranches" +:+ dquote +:+ ":" +:+
        json.encodeArray json.encodeString (BaseBranches r)) +:+
  "}".

(** [json.Marshal(repositories)]; the slice is never nil in this program. *)
Definition marshalRepositories (repositories : list renovateRepository) : string :=
  json.encodeArray marshalRenovateRepository repositories.

Definition template : string :=
  newline +:+
  tab +:+ "module.exports = {" +:+ newline +:+
  tab +:+ tab +:+ "platform: " +:+ dquote +:+ "github" +:+ dquote +:+ "," +:+ newline +:+
  tab +:+ tab +:+ "username: " +:+ dquote +:+ "%s[bot]" +:+ dquote +:+ "," +:+ newline +:+
  tab +:+ tab +:+ "gitAuthor:" +:+ dquote +:+ "%s <123456+%s[bot]@users.noreply.github.com>" +:+ dquote +:+ "," +:+ newline +:+
  tab +:+ tab +:+ "onboarding: false," +:+ newline +:+
  tab +:+ tab +:+ "requireConfig: " +:+ dquote +:+ "ignored" +:+ dquote +:+ "," +:+ newline +:+
  tab +:+ tab +:+ "enabledManagers: [" +:+ dquote +:+ "tekton" +:+ dquote +:+ "]," +:+ newline +:+
  tab +:+ tab +:+ "repositories: %s," +:+ newline +:+
  tab +:+ tab +:+ "tekton: {" +:+ newline +:+
  tab +:+ tab +:+ tab +:+ "fileMatch: [" +:+ dquote +:+ "\\.yaml$" +:+ dquote +:+ ", " +:+ dquote +:+ "\\.yml$" +:+ dquote +:+ "]," +:+ newline +:+
  tab +:+ tab +:+ tab +:+ "includePaths: [" +:+ dquote +:+ ".tekton/**" +:+ dquote +:+ "]," +:+ newline +:+
  tab +:+ tab +:+ tab +:+ "packageRules: [" +:+ newline +:+
  tab +:+ tab +:+ tab +:+ "  {" +:+ newline +:+
  tab +:+ tab +:+ tab +:+ tab +:+ "matchPackagePatterns: [" +:+ dquote +:+ "*" +:+ dquote +:+ "]," +:+ newline +:+
  tab +:+ tab +:+ tab +:+ tab +:+ "enabled: false" +:+ newline +:+
  tab +:+ tab +:+ tab +:+ "  }," +:+ newline +:+
  tab +:+ tab +:+ tab +:+ "  {" +:+ newline +:+
  tab +:+ tab +:+ tab +:+ tab +:+ "matchPackagePatterns: [" +:+ dquote +:+ "%s" +:+ dquote +:+ "]," +:+ newline +:+
  tab +:+ tab +:+ tab +:+ tab +:+ "matchDepPatterns: [" +:+ dquote +:+ "%s" +:+ dquote +:+ "]," +:+ newline +:+
  tab +:+ tab +:+ tab +:+ tab +:+ "groupName: " +:+ dquote +:+ "tekton references" +:+ dquote +:+ "," +:+ newline +:+
  tab +:+ tab +:+ tab +:+ tab +:+ "enabled: true" +:+ newline +:+
  tab +:+ tab +:+ tab +:+ "  }" +:+ newline +:+
  tab +:+ tab +:+ tab +:+ "]" +:+ newline +:+
  tab +:+ tab +:+ "}," +:+ newline +:+
  tab +:+ tab +:+ "includeForks: true," +:+ newline +:+
  tab +:+ tab +:+ "dependencyDashboard: false" +:+ newline +:+
  tab +:+ "}" +:+ newline +:+
  tab.

Definition generateConfigJS (getenv : string -> string) (slug : string)
    (repositories : list renovateRepository) : string :=
  let repositoriesData := marshalRepositories repositories in
  let renovatePattern := getenv RenovateMatchPatternEnvName in
  let renovatePattern :=
    if decide (renovatePattern = "") then DefaultRenovateMatchPattern else renovatePattern in
  fmt.Sprintf template
    [fmt.Str slug; fmt.Str slug; fmt.Str slug; fmt.Str repositoriesData;
     fmt.Str renovatePattern; fmt.Str renovatePattern].

(** ** CreateRenovaterJob *)

(** Lines 254-263: the three accumulators filled by the loop over the
    installations of the batch. *)
Definition collectInstallations (getenv : string -> string) (slug : string)
    (installations : list installationStruct)
  : gmap string string * gmap string string * list string :=
  fold_left
    (fun '(secretTokens, configmaps, renovateCmds) installation =>
       (<[fmt.Sprint (id installation) := token installation]> secretTokens,
        <[fmt.Sprintf "%d.js" [fmt.Int (id installation)] :=
            generateConfigJS getenv slug (repositories installation)]> configmaps,
        renovateCmds ++
          [fmt.Sprintf "RENOVATE_TOKEN=$TOKEN_%d RENOVATE_CONFIG_FILE=/configs/%d.js renovate"
             [fmt.Int (id installation); fmt.Int (id installation)]]))
    installations (∅, ∅, []).

(** Lines 267-344: the three objects, from the name and the accumulators. *)
Definition newSecret (namespace name : string) (secretTokens : gmap string string) : Secret :=
  {| Secret_ObjectMeta :=
       {| meta_Name := name; meta_Namespace := namespace; meta_OwnerReferences := [] |};
     Secret_StringData := secretTokens |}.

Definition newConfigMap (namespace name : string) (configmaps : gmap string string) : ConfigMap :=
  {| ConfigMap_ObjectMeta :=
       {| meta_Name := name; meta_Namespace := namespace; meta_OwnerReferences := [] |};
     ConfigMap_Data := configmaps |}.

Definition newJob (getenv : string -> string) (namespace name : string)
    (renovateCmds : list string) : Job :=
  let trueBool := true in
  let falseBool := false in
  let backoffLimit := int32 1 in
  let timeToLive := int32 (Seconds TimeToLiveOfJob) in
  let renovateImageUrl := getenv RenovateImageEnvName in
  let renovateImageUrl :=
    if decide (renovateImageUrl = "") then DefaultRenovateImageUrl else renovateImageUrl in
  {| Job_ObjectMeta :=
       {| meta_Name := name; meta_Namespace := namespace; meta_OwnerReferences := [] |};
     Job_Spec :=
       {| BackoffLimit := Some backoffLimit;
          TTLSecondsAfterFinished := Some timeToLive;
          Template_Spec :=
            {| Volumes := [ {| Volume_Name := name; Volume_ConfigMap := Some name |} ];
               Containers :=
                 [ {| Container_Name := "renovate";
                      Container_Image := renovateImageUrl;
                      Container_EnvFrom :=
                        [ {| EnvFrom_Prefix := "TOKEN_"; EnvFrom_SecretRef := Some name |} ];
                      Container_Command :=
                        ["bash"; "-c"; strings.Join renovateCmds "; "];
                      Container_VolumeMounts :=
                        [ {| VolumeMount_Name := name;
                             VolumeMount_ReadOnly := false;
                             VolumeMount_MountPath := "/configs" |} ];
                      Container_SecurityContext :=
                        Some {| Capabilities_Drop := ["ALL"];
                                RunAsNonRoot := Some trueBool;
                                AllowPrivilegeEscalation := Some falseBool;
                                SeccompProfile_Type := Some "RuntimeDefault" |} |} ];
               RestartPolicy := "Never" |} |} |}.

Definition setOwner (owners : ObjectMeta) (obj : Object) : Object :=
  match obj with
  | OSecret s =>
      OSecret {| Secret_ObjectMeta := owners; Secret_StringData := Secret_StringData s |}
  | OConfigMap c =>
      OConfigMap {| ConfigMap_ObjectMeta := owners; ConfigMap_Data := ConfigMap_Data c |}
  | OJob j => OJob {| Job_ObjectMeta := owners; Job_Spec := Job_Spec j |}
  end.

Definition objectMeta (obj : Object) : ObjectMeta :=
  match obj with
  | OSecret s => Secret_ObjectMeta s
  | OConfigMap c => ConfigMap_ObjectMeta c
  | OJob j => Job_ObjectMeta j
  end.

Section Controller.

Context (env : Env).

Definition Client_Create (obj : Object) : M (option error) :=
  call (fun tr => client_Create env tr obj) (Call_Client_Create obj).

Definition Client_Update (obj : Object) : M (option error) :=
  call (fun tr => client_Update env tr obj) (Call_Client_Update obj).

Definition Log_Error (err : error) (msg : string) : M unit :=
  call (fun _ => tt) (Call_Log_Error err msg).

Definition Log_Info (msg : string) : M unit :=
  call (fun _ => tt) (Call_Log_Info msg).

(** Lines 356-361 and 363-368: make the job the owner of [obj] and write
    [obj] back. *)
Definition ownAndUpdate (job : Job) (obj : Object) : M (option error) :=
  match controllerutil_SetOwnerReference env job (objectMeta obj) with
  | inr err => ret (Some err)
  | inl owned => Client_Update (setOwner owned obj)
  end.

Definition CreateRenovaterJob (installations : list installationStruct) (slug : string)
  : M (option error) :=
  if (length installations =? 0)%nat then ret None
  else
    timestamp <- peek (time_Now_Unix env);;
    suffix <- peek (fun tr => getRandomString env tr 5);;
    let name := fmt.Sprintf "renovate-job-%d-%s" [fmt.Int timestamp; fmt.Str suffix] in
    let '(secretTokens, configmaps, renovateCmds) :=
      collectInstallations (os_Getenv env) slug installations in
    if (length renovateCmds =? 0)%nat then ret None
    else
      let secret := newSecret (buildServiceNamespaceName env) name secretTokens in
      let configMap := newConfigMap (buildServiceNamespaceName env) name configmaps in
      let job := newJob (os_Getenv env) (buildServiceNamespaceName env) name renovateCmds in
      err <- Client_Create (OSecret secret);;
      if err is Some e then ret (Some e) else
      err <- Client_Create (OConfigMap configMap);;
      if err is Some e then ret (Some e) else
      err <- Client_Create (OJob job);;
      if err is Some e then ret (Some e) else
      Log_Info (fmt.Sprintf "Job %s triggered" [fmt.Str (meta_Name (Job_ObjectMeta job))]);;
      err <- ownAndUpdate job (OSecret secret);;
      if err is Some e then ret (Some e) else
      err <- ownAndUpdate job (OConfigMap configMap);;
      if err is Some e then ret (Some e) else
      ret None.

End Controller.

(** ** Reconcile *)

(** Lines 185-194: the number of installations per job. *)
Definition installationPerJob (getenv : string -> string) : Z :=
  let installationPerJobStr := getenv InstallationsPerJobEnvName in
  if regexp.MatchString_1_2_digits installationPerJobStr then
    let installationPerJobInt := fst (strconv.Atoi installationPerJobStr) in
    if installationPerJobInt =? 0 then InstallationsPerJob else installationPerJobInt
  else InstallationsPerJob.

(** The slice expression [s[i:end]] for [0 <= i <= end <= len(s)]. *)
Definition slice {A} (s : list A) (i end_ : Z) : list A :=
  take (Z.to_nat (end_ - i)) (drop (Z.to_nat i) s).

(** Lines 195-205: the loop [for i := 0; i < len(l); i += n], started at
    [i].  [body] is what is done with each batch and [st] is what the body
    reads and changes.  Each turn spends one unit of [fuel]; the result is
    [None] when the fuel does not suffice, as it never does for [n = 0].
    The sums stay far below 2^63, so they are not reduced. *)
Fixpoint batchLoop {A St} (fuel : nat) (i : Z) (installationPerJobInt : Z)
    (installationsToUpdate : list A) (body : list A -> St -> option St) (st : St)
  : option St :=
  if i <? Z.of_nat (length installationsToUpdate) then
    match fuel with
    | O => None
    | S fuel' =>
        let end_ := i + installationPerJobInt in
        let end_ :=
          if Z.of_nat (length installationsToUpdate) <? end_
          then Z.of_nat (length installationsToUpdate) else end_ in
        match body (slice installationsToUpdate i end_) st with
        | Some st' =>
            batchLoop fuel' (i + installationPerJobInt) installationPerJobInt
              installationsToUpdate body st'
        | None => None
        end
    end
  else Some st.

(** The batches the loop hands to its body, in the order of the calls. *)
Definition batches {A} (installationPerJobInt : Z) (installationsToUpdate : list A)
  : option (list (list A)) :=
  batchLoop (length installationsToUpdate) 0 installationPerJobInt installationsToUpdate
    (fun batch acc => Some (acc ++ [batch])) [].

Section Reconciler.

Context (env : Env).

Definition Client_Get (namespace name : string) : M (gmap string string + error) :=
  call (fun tr => client_Get env tr namespace name) (Call_Client_Get namespace name).

Definition EventRecorder_Event (eventtype reason : string) (err : error) : M unit :=
  call (fun _ => tt) (Call_EventRecorder_Event eventtype reason err).

Definition GetInstallations (githubAppId : Z) (privateKey : string)
  : M (list ApplicationInstallation * string + error) :=
  call (fun tr => github_GetInstallations env tr githubAppId privateKey)
       (Call_GetInstallations githubAppId privateKey).

Definition Client_List : M (list Component + error) :=
  call (client_List env) Call_Client_List.

(** Lines 201-204: one turn of the loop. *)
Definition createJobOrLog (slug : string) (batch : list installationStruct) : M unit :=
  err <- CreateRenovaterJob env batch slug;;
  if err is Some e then Log_Error e "failed to create a job" else ret tt.

(** Lines 126-207, entered with the data of the secret. *)
Definition reconcileWithSecret (pacSecretData : gmap string string)
  : M (Result * option error) :=
  let isApp := IsPaCApplicationConfigured env "github" pacSecretData in
  if negb isApp then
    Log_Info "GitHub App is not set";;
    ret (Result_zero, None)
  else
    let githubAppIdStr := default "" (pacSecretData !! PipelinesAsCode_githubAppIdKey env) in
    match strconv.ParseInt githubAppIdStr with
    | (_, Some numErr) =>
        Log_Error (NumError "ParseInt" githubAppIdStr numErr)
          "failed to convert %s to int: %w";;
        ret (Result_zero, None)
    | (githubAppId, None) =>
        let privateKey :=
          default "" (pacSecretData !! PipelinesAsCode_githubPrivateKey env) in
        installations <- GetInstallations githubAppId privateKey;;
        match installations with
        | inr err => ret (Result_zero, Some err)
        | inl (githubAppInstallations, slug) =>
            componentList <- Client_List;;
            match componentList with
            | inr err =>
                Log_Error err "failed to list Components";;
                ret (Result_zero, Some err)
            | inl items =>
                let componentUrlToBranchMap := buildComponentUrlToBranchMap items in
                let installationsToUpdate :=
                  matchInstallations componentUrlToBranchMap githubAppInstallations in
                let installationPerJobInt := installationPerJob (os_Getenv env) in
                fun tr =>
                  match
                    batchLoop (length installationsToUpdate) 0 installationPerJobInt
                      installationsToUpdate
                      (fun batch tr => snd <$> createJobOrLog slug batch tr) tr
                  with
                  | Some tr' =>
                      Some ({| Requeue := false; RequeueAfter := NextReconcile |}, None, tr')
                  | None => None
                  end
            end
        end
    end.

Definition Reconcile : M (Result * option error) :=
  got <- Client_Get (buildServiceNamespaceName env) (PipelinesAsCodeSecretName env);;
  match got with
  | inr err =>
      if negb (IsNotFound err) then
        EventRecorder_Event "Warning" "ErrorReadingPaCSecret" err;;
        Log_Error err "failed to get Pipelines as Code secret in %s namespace: %w";;
        ret (Result_zero, None)
      else reconcileWithSecret ∅
  | inl pacSecretData => reconcileWithSecret pacSecretData
  end.

End Reconciler.

(** ** SetupWithManager, lines 83-98: the events that are reconciled *)

(** The predicates given to the builder: the events of the watched kind
    and which of them lead to a reconciliation.  The two names are
    constants of other files of the package. *)
Record WatchedObject := {
  GetNamespace : string;
  GetName : string;
}.

Inductive WatchEvent :=
| CreateEvent (Object : WatchedObject)
| DeleteEvent (Object : WatchedObject)
| UpdateEvent (ObjectOld ObjectNew : WatchedObject)
| GenericEvent (Object : WatchedObject).

Definition selectorPredicate (buildServiceNamespaceName buildPipelineSelectorResourceName : string)
    (e : WatchEvent) : bool :=
  match e with
  | CreateEvent Object =>
      bool_decide (GetNamespace Object = buildServiceNamespaceName)
      && bool_decide (GetName Object = buildPipelineSelectorResourceName)
  | DeleteEvent _ => false
  | UpdateEvent _ ObjectNew =>
      bool_decide (GetNamespace ObjectNew = buildServiceNamespaceName)
      && bool_decide (GetName ObjectNew = buildPipelineSelectorResourceName)
  | GenericEvent _ => false
  end.

(** ** Vocabulary of the statements *)

(** What the matcher makes of one repository and of one installation. *)
Definition toRenovate (m : gmap string string) (r : github_Repository)
  : option renovateRepository :=
  (λ branch, {| Repository := GetFullName r;
                BaseBranches := if decide (branch = "") then [] else [branch] |})
    <$> m !! GetHTMLURL r.

Definition toUpdate (m : gmap string string) (inst : ApplicationInstallation)
  : installationStruct :=
  {| id := ID inst; token := Token inst;
     repositories := matchRepositories m (Repositories inst) |}.

(** The Git sources of the components that have one, in list order. *)
Definition gitSources (items : list Component) : list GitSource :=
  omap Spec_Source_GitSource items.

(** Running a body over a list of batches, one after the other. *)
Fixpoint foldBatches {A St} (body : list A -> St -> option St)
    (bs : list (list A)) (st : St) : option St :=
  match bs with
  | [] => Some st
  | b :: bs' =>
      match body b st with
      | Some st' => foldBatches body bs' st'
      | None => None
      end
  end.

(** No batch is empty or longer than [n]; all but the last have length [n]. *)
Definition wellBatched {A} (n : Z) (bs : list (list A)) : Prop :=
  Forall (λ b, (0 < length b)%nat ∧ Z.of_nat (length b) <= n) bs
  ∧ ∀ k b, bs !! k = Some b → (S k < length bs)%nat → Z.of_nat (length b) = n.

(** An environment in which only [name] is set. *)
Definition envWith (name value : string) : string -> string :=
  fun key => if decide (key = name) then value else "".

Definition digit (c : ascii) : Z := Z.of_N (N_of_ascii c) - 48.

(** The command of one installation, written out. *)
Definition renovateCmd (installation : installationStruct) : string :=
  "RENOVATE_TOKEN=$TOKEN_" +:+ fmt.Sprint (id installation)
  +:+ " RENOVATE_CONFIG_FILE=/configs/" +:+ fmt.Sprint (id installation) +:+ ".js renovate".

Definition secretTokensOf (getenv : string -> string) (slug : string)
    (installations : list installationStruct) : gmap string string :=
  (collectInstallations getenv slug installations).1.1.

Definition configmapsOf (getenv : string -> string) (slug : string)
    (installations : list installationStruct) : gmap string string :=
  (collectInstallations getenv slug installations).1.2.

Definition renovateCmdsOf (getenv : string -> string) (slug : string)
    (installations : list installationStruct) : list string :=
  (collectInstallations getenv slug installations).2.

(** The config map filled from identifiers and repository lists alone. *)
Definition configmapsFrom (getenv : string -> string) (slug : string)
    (l : list (Z * list renovateRepository)) : gmap string string :=
  fold_left
    (fun configmaps '(n, repos) =>
       <[fmt.Sprint n +:+ ".js" := generateConfigJS getenv slug repos]> configmaps)
    l ∅.

(** A format cut at its [%s] verbs, text without a verb, and pieces of text
    put back together around operands. *)
Fixpoint cutAtVerbs (format : string) : list string :=
  match format with
  | "" => [""]
  | String "%" (String "s" rest) => "" :: cutAtVerbs rest
  | String c rest =>
      match cutAtVerbs rest with
      | p :: ps => String c p :: ps
      | [] => [String c ""]
      end
  end.

Fixpoint noVerb (s : string) : bool :=
  match s with
  | "" => true
  | String c rest => negb (bool_decide (c = "%"%char)) && noVerb rest
  end.

Fixpoint interleave (pieces operands : list string) : string :=
  match pieces, operands with
  | [], _ => ""
  | p :: _, [] => p
  | p :: ps, a :: operands' => p +:+ a +:+ interleave ps operands'
  end.

(** Strings made of the ASCII characters JSON copies as they are, and
    the repositories whose name and branches are such strings. *)
Fixpoint plain (s : string) : bool :=
  match s with
  | "" => true
  | String c rest => json.htmlSafe c && plain rest
  end.

Definition plainRepository (r : renovateRepository) : Prop :=
  plain (Repository r) = true ∧ Forall (λ b, plain b = true) (BaseBranches r).

(** What follows the name in the entry of a repository, before [x]. *)
Definition entryTail (baseBranches : list string) (x : string) : string :=
  match baseBranches with
  | [] => String "}" x
  | _ =>
      ("," +:+ dquote +:+ "baseBranches" +:+ dquote +:+ ":[")
      +:+ strings.Join (json.encodeString <$> baseBranches) ","
      +:+ String "]" (String "}" x)
  end.

(** The data of the secret [Reconcile] goes on with, if it goes on: the
    data read, or none when the secret does not exist. *)
Definition pacSecretData (env : Env) (tr : Trace) : option (gmap string string) :=
  match client_Get env tr (buildServiceNamespaceName env) (PipelinesAsCodeSecretName env) with
  | inl data => Some data
  | inr err => if IsNotFound err then Some ∅ else None
  end.

(** The token maps of the secrets whose creation was asked for. *)
Definition secretsCreated (tr : Trace) : list (gmap string string) :=
  omap (λ e, match e with
             | Call_Client_Create (OSecret secret) => Some (Secret_StringData secret)
             | _ => None
             end) tr.

(** The name [CreateRenovaterJob] picks when it starts at trace [tr]. *)
Definition jobName (env : Env) (tr : Trace) : string :=
  fmt.Sprintf "renovate-job-%d-%s"
    [fmt.Int (time_Now_Unix env tr); fmt.Str (getRandomString env tr 5)].

(** One turn of the batch loop as a change of the trace. *)
Definition runBatch (env : Env) (slug : string) (batch : list installationStruct)
    (tr : Trace) : option Trace :=
  snd <$> createJobOrLog env slug batch tr.

Definition isDirectoryCall (e : Event) : bool :=
  match e with Call_GetInstallations _ _ => true | _ => false end.

Definition isCreate (e : Event) : bool :=
  match e with Call_Client_Create _ => true | _ => false end.

(** The value the code uses for a variable read with [os.Getenv]: the
    default when the variable is unset or empty. *)
Definition effective (getenv : string -> string) (name default : string) : string :=
  if decide (getenv name = "") then default else getenv name.

(** Strings all of whose characters pass a test. *)
Fixpoint allChars (P : ascii -> bool) (s : string) : bool :=
  match s with
  | "" => true
  | String c rest => P c && allChars P rest
  end.

(** A byte that is not below 0x20, hence none of the control characters
    from NUL to US, and is none of [<], [>], [&].  DEL and the bytes above
    it pass. *)
Definition inert (c : ascii) : bool :=
  (32 <=? utf8.byte c)
  && negb (bool_decide (c = "<"%char)) && negb (bool_decide (c = ">"%char))
  && negb (bool_decide (c = "&"%char)).

(** The six calls of a run of [CreateRenovaterJob] in which nothing fails;
    [m1] and [m2] are the metadata of the secret and of the config map with
    the job as owner. *)
Definition sixCalls (env : Env) (slug : string) (batch : list installationStruct)
    (tr : Trace) (m1 m2 : ObjectMeta) : list Event :=
  let ns := buildServiceNamespaceName env in
  let name := jobName env tr in
  let secret := newSecret ns name (secretTokensOf (os_Getenv env) slug batch) in
  let configMap := newConfigMap ns name (configmapsOf (os_Getenv env) slug batch) in
  let job := newJob (os_Getenv env) ns name (renovateCmd <$> batch) in
  [ Call_Client_Create (OSecret secret);
    Call_Client_Create (OConfigMap configMap);
    Call_Client_Create (OJob job);
    Call_Log_Info (fmt.Sprintf "Job %s triggered" [fmt.Str name]);
    Call_Client_Update (setOwner m1 (OSecret secret));
    Call_Client_Update (setOwner m2 (OConfigMap configMap)) ].

(** The surroundings [env] with another environment of the process, and
    with another check of the secret. *)
Definition withGetenv (env : Env) (getenv : string -> string) : Env :=
  {| buildServiceNamespaceName := buildServiceNamespaceName env;
     PipelinesAsCodeSecretName := PipelinesAsCodeSecretName env;
     PipelinesAsCode_githubAppIdKey := PipelinesAsCode_githubAppIdKey env;
     PipelinesAsCode_githubPrivateKey := PipelinesAsCode_githubPrivateKey env;
     IsPaCApplicationConfigured := IsPaCApplicationConfigured env;
     getRandomString := getRandomString env;
     time_Now_Unix := time_Now_Unix env;
     os_Getenv := getenv;
     client_Get := client_Get env;
     github_GetInstallations := github_GetInstallations env;
     client_List := client_List env;
     client_Create := client_Create env;
     client_Update := client_Update env;
     controllerutil_SetOwnerReference := controllerutil_SetOwnerReference env |}.

Definition withCheck (env : Env) (check : string -> gmap string string -> bool) : Env :=
  {| buildServiceNamespaceName := buildServiceNamespaceName env;
     PipelinesAsCodeSecretName := PipelinesAsCodeSecretName env;
     PipelinesAsCode_githubAppIdKey := PipelinesAsCode_githubAppIdKey env;
     PipelinesAsCode_githubPrivateKey := PipelinesAsCode_githubPrivateKey env;
     IsPaCApplicationConfigured := check;
     getRandomString := getRandomString env;
     time_Now_Unix := time_Now_Unix env;
     os_Getenv := os_Getenv env;
     client_Get := client_Get env;
     github_GetInstallations := github_GetInstallations env;
     client_List := client_List env;
     client_Create := client_Create env;
     client_Update := client_Update env;
     controllerutil_SetOwnerReference := controllerutil_SetOwnerReference env |}.

(** The events that are neither a directory call nor a creation. *)
Definition quiet (e : Event) : Prop := isDirectoryCall e = false ∧ isCreate e = false.


(** ** A small cluster to run the controller on *)

Definition exampleRepository (name : string) : github_Repository :=
  {| HTMLURL := Some ("https://github.com/" +:+ name); FullName := Some name |}.

Definition exampleInstallations : list ApplicationInstallation :=
  [ {| ID := 1; Token := "t1";
       Repositories := [exampleRepository "o/A"; exampleRepository "o/B"] |};
    {| ID := 2; Token := "t2"; Repositories := [exampleRepository "o/C"] |};
    {| ID := 3; Token := "t3";
       Repositories := [exampleRepository "o/D"; exampleRepository "o/E"] |};
    {| ID := 4; Token := "t4"; Repositories := [exampleRepository "o/F"] |} ].

Definition exampleComponents : list Component :=
  [ {| Spec_Source_GitSource :=
         Some {| URL := "https://github.com/o/A.git"; Revision := "main" |} |};
    {| Spec_Source_GitSource :=
         Some {| URL := "https://github.com/o/C/"; Revision := "" |} |};
    {| Spec_Source_GitSource := None |};
    {| Spec_Source_GitSource :=
         Some {| URL := "https://github.com/o/E"; Revision := "dev" |} |} ].

Definition exampleSecretData : gmap string string :=
  {[ "github-application-id" := "42"; "github-private-key" := "KEY" ]}.

Definition exampleEnv (pacSecret : gmap string string + error)
    (components : list Component + error)
    (create : Trace -> Object -> option error) : Env :=
  {| buildServiceNamespaceName := "build-service";
     PipelinesAsCodeSecretName := "pipelines-as-code-secret";
     PipelinesAsCode_githubAppIdKey := "github-application-id";
     PipelinesAsCode_githubPrivateKey := "github-private-key";
     IsPaCApplicationConfigured := fun provider data =>
       bool_decide (provider = "github")
       && bool_decide (is_Some (data !! "github-application-id"));
     getRandomString := fun _ _ => "abcde";
     time_Now_Unix := fun tr => 1700000000 + Z.of_nat (length tr);
     os_Getenv := envWith InstallationsPerJobEnvName "2";
     client_Get := fun _ _ _ => pacSecret;
     github_GetInstallations := fun _ _ _ => inl (exampleInstallations, "slug");
     client_List := fun _ => components;
     client_Create := create;
     client_Update := fun _ _ => None;
     controllerutil_SetOwnerReference := fun job meta =>
       inl {| meta_Name := meta_Name meta; meta_Namespace := meta_Namespace meta;
              meta_OwnerReferences := [meta_Name (Job_ObjectMeta job)] |} |}.

Definition exampleError : error := APIError false "the server is unavailable".

(** The first creation of a secret is refused, every other creation is
    accepted. *)
Definition refuseFirstSecret (tr : Trace) (obj : Object) : option error :=
  match obj, secretsCreated tr with
  | OSecret _, [] => Some exampleError
  | _, _ => None
  end.

Definition exampleBatch : list installationStruct :=
  [ {| id := 1; token := "t1";
       repositories := [ {| Repository := "o/A"; BaseBranches := ["main"] |} ] |};
    {| id := 2; token := "t2";
       repositories := [ {| Repository := "o/C"; BaseBranches := [] |} ] |} ].

Definition exampleBatchOtherTokens : list installationStruct :=
  [ {| id := 1; token := "another token";
       repositories := [ {| Repository := "o/A"; BaseBranches := ["main"] |} ] |};
    {| id := 2; token := "and one more";
       repositories := [ {| Repository := "o/C"; BaseBranches := [] |} ] |} ].

(** * Properties *)

(** ** Strings: append, suffixes and [TrimSuffix] *)

Section string_facts.
Implicit Types s p q suffix : string.

Lemma string_app_cons c p s : String c p +:+ s = String c (p +:+ s).
Proof. reflexivity. Qed.

Lemma string_app_nil_l s : "" +:+ s = s.
Proof. reflexivity. Qed.

Lemma string_length_app p s :
  String.length (p +:+ s) = (String.length p + String.length s)%nat.
Proof.
  induction p as [|c p IH]; rewrite ?string_app_cons, ?string_app_nil_l; simpl;
    [done | by rewrite IH].
Qed.

Lemma substring_all s : String.substring 0 (String.length s) s = s.
Proof. induction s as [|c s IH]; simpl; [done | by rewrite IH]. Qed.

Lemma substring_app_l p s : String.substring 0 (String.length p) (p +:+ s) = p.
Proof.
  induction p as [|c p IH]; rewrite ?string_app_cons, ?string_app_nil_l; simpl.
  - by destruct s.
  - by rewrite IH.
Qed.

Lemma substring_app_r p s :
  String.substring (String.length p) (String.length s) (p +:+ s) = s.
Proof.
  induction p as [|c p IH]; rewrite ?string_app_cons, ?string_app_nil_l; simpl;
    [apply substring_all | done].
Qed.

Lemma substring_split s n :
  (n <= String.length s)%nat →
  s = String.substring 0 n s +:+ String.substring n (String.length s - n) s.
Proof.
  revert n. induction s as [|c s IH]; intros [|n] Hn; simpl in *; try lia; try done.
  - by rewrite substring_all.
  - rewrite string_app_cons. f_equal. apply IH. lia.
Qed.

Lemma HasSuffix_true s suffix :
  strings.HasSuffix s suffix = true ↔ ∃ p, s = p +:+ suffix.
Proof.
  unfold strings.HasSuffix. rewrite andb_true_iff, Nat.leb_le, bool_decide_eq_true.
  split.
  - intros [Hlen Hsub].
    exists (String.substring 0 (String.length s - String.length suffix) s).
    pose proof (substring_split s (String.length s - String.length suffix)) as Hs.
    replace (String.length s - (String.length s - String.length suffix))%nat
      with (String.length suffix) in Hs by lia.
    rewrite Hsub in Hs. apply Hs. lia.
  - intros [p ->]. rewrite string_length_app. split; [lia|].
    replace (String.length p + String.length suffix - String.length suffix)%nat
      with (String.length p) by lia.
    apply substring_app_r.
Qed.

Lemma TrimSuffix_app p suffix : strings.TrimSuffix (p +:+ suffix) suffix = p.
Proof.
  unfold strings.TrimSuffix.
  rewrite (proj2 (HasSuffix_true _ _)) by eauto.
  rewrite string_length_app.
  replace (String.length p + String.length suffix - String.length suffix)%nat
    with (String.length p) by lia.
  apply substring_app_l.
Qed.

Lemma TrimSuffix_none s suffix :
  strings.HasSuffix s suffix = false → strings.TrimSuffix s suffix = s.
Proof. unfold strings.TrimSuffix. by intros ->. Qed.

Lemma string_app_assoc p q s : (p +:+ q) +:+ s = p +:+ (q +:+ s).
Proof.
  induction p as [|c p IH]; rewrite ?string_app_cons, ?string_app_nil_l;
    [done | by rewrite IH].
Qed.

Lemma string_app_last_inj p q a b : p +:+ String a "" = q +:+ String b "" → a = b.
Proof.
  revert q. induction p as [|c p IH]; intros [|d q] H;
    rewrite ?string_app_cons, ?string_app_nil_l in H.
  - by injection H.
  - injection H as _ H. by destruct q.
  - injection H as _ H. by destruct p.
  - injection H as _ H. eauto.
Qed.

Lemma HasSuffix_last_ne p a suffix' b :
  a ≠ b → strings.HasSuffix (p +:+ String a "") (suffix' +:+ String b "") = false.
Proof.
  intros Hne. apply not_true_is_false. rewrite HasSuffix_true. intros [q Hq].
  rewrite <- string_app_assoc in Hq. by apply string_app_last_inj in Hq.
Qed.

End string_facts.

(** ** The matcher as a filter *)

Lemma matchRepositories_omap m repos :
  matchRepositories m repos = omap (toRenovate m) repos.
Proof.
  unfold matchRepositories.
  enough (∀ acc, fold_left
    (fun repositories repository =>
       match m !! GetHTMLURL repository with
       | None => repositories
       | Some branch =>
           let baseBranches := [] in
           let baseBranches :=
             if decide (branch = "") then baseBranches else baseBranches ++ [branch] in
           repositories ++
             [ {| Repository := GetFullName repository;
                  BaseBranches := baseBranches |} ]
       end) repos acc = acc ++ omap (toRenovate m) repos) as H by apply H.
  induction repos as [|r repos IH]; intros acc; simpl.
  - by rewrite app_nil_r.
  - rewrite IH. unfold toRenovate at 2. destruct (m !! GetHTMLURL r) as [branch|]; simpl.
    + by rewrite <- app_assoc.
    + done.
Qed.

Lemma matchRepositories_names m repos :
  Repository <$> matchRepositories m repos
  = GetFullName <$> filter (λ r, is_Some (m !! GetHTMLURL r)) repos.
Proof.
  rewrite matchRepositories_omap.
  induction repos as [|r repos IH]; [done|].
  rewrite filter_cons. cbn [omap list_omap]. unfold toRenovate at 1.
  destruct (m !! GetHTMLURL r) as [branch|] eqn:E; simpl.
  - f_equal. apply IH.
  - apply IH.
Qed.

Lemma matchRepositories_nil m repos :
  matchRepositories m repos = [] ↔ ¬ Exists (λ r, is_Some (m !! GetHTMLURL r)) repos.
Proof.
  rewrite matchRepositories_omap.
  induction repos as [|r repos IH]; simpl.
  - split; [|done]. intros _ H. by apply Exists_nil in H.
  - rewrite Exists_cons. unfold toRenovate at 1.
    destruct (m !! GetHTMLURL r) as [branch|] eqn:E; simpl.
    + split; [done|]. intros H. destruct H. left. eauto.
    + rewrite IH. split.
      * intros H [[? ?]|?]; [done|tauto].
      * tauto.
Qed.

Lemma matchInstallations_filter m insts :
  matchInstallations m insts
  = toUpdate m <$>
      filter (λ inst, Exists (λ r, is_Some (m !! GetHTMLURL r)) (Repositories inst)) insts.
Proof.
  unfold matchInstallations.
  set (keep := λ inst, Exists (λ r, is_Some (m !! GetHTMLURL r)) (Repositories inst)).
  enough (∀ acc, fold_left
    (fun installationsToUpdate githubAppInstallation =>
       let repositories :=
         matchRepositories m (Repositories githubAppInstallation) in
       if (length repositories =? 0)%nat then installationsToUpdate
       else installationsToUpdate ++
              [ {| id := ID githubAppInstallation;
                   token := Token githubAppInstallation;
                   repositories := repositories |} ]) insts acc
     = acc ++ (toUpdate m <$> filter keep insts)) as H by apply H.
  induction insts as [|inst insts IH]; intros acc.
  - simpl. by rewrite app_nil_r.
  - rewrite filter_cons. cbn [fold_left]. rewrite IH. cbv zeta.
    pose proof (matchRepositories_nil m (Repositories inst)) as Hnil.
    fold (keep inst) in Hnil.
    destruct (decide (keep inst)) as [Hk|Hk];
      destruct (matchRepositories m (Repositories inst)) as [|x xs] eqn:E; simpl.
    + exfalso. by apply Hnil.
    + rewrite <- app_assoc. simpl. unfold toUpdate at 2. by rewrite E.
    + done.
    + exfalso. by apply Hnil in Hk.
Qed.

(** ** Keys of the tracked-repository map *)

Lemma normalizeUrl_slash p : normalizeUrl (p +:+ "/") = p.
Proof.
  unfold normalizeUrl.
  rewrite (TrimSuffix_none (p +:+ "/") ".git").
  - apply TrimSuffix_app.
  - by apply (HasSuffix_last_ne p "/" ".gi" "t").
Qed.

Lemma normalizeUrl_git p : normalizeUrl (p +:+ ".git") = strings.TrimSuffix p "/".
Proof. unfold normalizeUrl. by rewrite TrimSuffix_app. Qed.

Lemma normalizeUrl_forms url :
  let key := normalizeUrl url in
  url = key ∨ url = key +:+ "/" ∨ url = key +:+ ".git" ∨ url = key +:+ "/.git".
Proof.
  unfold normalizeUrl. cbv zeta.
  destruct (strings.HasSuffix url ".git") eqn:Hg.
  - apply HasSuffix_true in Hg as [p ->]. rewrite TrimSuffix_app.
    destruct (strings.HasSuffix p "/") eqn:Hs.
    + apply HasSuffix_true in Hs as [q ->]. rewrite TrimSuffix_app.
      right; right; right. apply string_app_assoc.
    + rewrite TrimSuffix_none by done. right; right; by left.
  - rewrite (TrimSuffix_none url) by done.
    destruct (strings.HasSuffix url "/") eqn:Hs.
    + apply HasSuffix_true in Hs as [q ->]. rewrite TrimSuffix_app. right; by left.
    + rewrite TrimSuffix_none by done. by left.
Qed.

Lemma buildComponentUrlToBranchMap_snoc items c :
  buildComponentUrlToBranchMap (items ++ [c])
  = match Spec_Source_GitSource c with
    | Some g => <[normalizeUrl (URL g) := Revision g]> (buildComponentUrlToBranchMap items)
    | None => buildComponentUrlToBranchMap items
    end.
Proof. unfold buildComponentUrlToBranchMap. by rewrite fold_left_app. Qed.

Lemma buildComponentUrlToBranchMap_lookup items key :
  buildComponentUrlToBranchMap items !! key
  = last (Revision <$> filter (λ g, normalizeUrl (URL g) = key) (gitSources items)).
Proof.
  unfold gitSources.
  induction items as [|c items IH] using rev_ind; [done|].
  rewrite buildComponentUrlToBranchMap_snoc, omap_app, filter_app, fmap_app.
  cbn [omap list_omap].
  destruct (Spec_Source_GitSource c) as [g|] eqn:Hc.
  - rewrite filter_cons, filter_nil.
    destruct (decide (normalizeUrl (URL g) = key)) as [->|Hne].
    + rewrite lookup_insert_eq, fmap_cons, fmap_nil. symmetry. apply last_snoc.
    + by rewrite lookup_insert_ne, fmap_nil, app_nil_r.
  - by rewrite filter_nil, fmap_nil, app_nil_r.
Qed.

Lemma buildComponentUrlToBranchMap_is_Some items key :
  is_Some (buildComponentUrlToBranchMap items !! key)
  ↔ Exists (λ g, normalizeUrl (URL g) = key) (gitSources items).
Proof.
  rewrite buildComponentUrlToBranchMap_lookup.
  rewrite Exists_exists.
  split.
  - intros [rev Hrev]. apply last_Some_elem_of in Hrev.
    apply list_elem_of_fmap in Hrev as (g & _ & Hg).
    apply list_elem_of_filter in Hg as [Hkey Hin]. eauto.
  - intros (g & Hin & Hkey).
    destruct (last _) eqn:E; [eauto|].
    apply last_None in E. apply fmap_nil_inv in E.
    assert (g ∈ filter (λ g, normalizeUrl (URL g) = key) (gitSources items)) as Hg
      by (apply list_elem_of_filter; done).
    rewrite E in Hg. by apply elem_of_nil in Hg.
Qed.

(** ** The batch loop *)

Lemma batchLoop_unfold {A St} fuel i n (l : list A) (body : list A -> St -> option St) st :
  batchLoop fuel i n l body st =
  if i <? Z.of_nat (length l) then
    match fuel with
    | O => None
    | S fuel' =>
        let end_ := i + n in
        let end_ := if Z.of_nat (length l) <? end_ then Z.of_nat (length l) else end_ in
        match body (slice l i end_) st with
        | Some st' => batchLoop fuel' (i + n) n l body st'
        | None => None
        end
    end
  else Some st.
Proof. by destruct fuel. Qed.

Lemma batchLoop_spec {A} (n : Z) (l : list A) :
  0 < n →
  ∀ fuel i, 0 <= i → Z.of_nat (length l) - i <= Z.of_nat fuel →
  ∃ bs, concat bs = drop (Z.to_nat i) l ∧ wellBatched n bs ∧
        ∀ St (body : list A -> St -> option St) st,
          batchLoop fuel i n l body st = foldBatches body bs st.
Proof.
  intros Hn fuel. induction fuel as [|fuel IH]; intros i Hi Hfuel.
  - exists []. split; [|split].
    + simpl. symmetry. apply drop_ge. lia.
    + split; [constructor|]. intros k b Hk. by rewrite lookup_nil in Hk.
    + intros St body st. rewrite batchLoop_unfold.
      destruct (Z.ltb_spec i (Z.of_nat (length l))); [lia|done].
  - destruct (Z.ltb_spec i (Z.of_nat (length l))) as [Hlt|Hge].
    + destruct (IH (i + n)) as (bs & Hcat & [Hall Hfull] & Hloop); [lia..|].
      set (end_ := if Z.of_nat (length l) <? i + n then Z.of_nat (length l) else i + n).
      exists (slice l i end_ :: bs).
      assert (length (slice l i end_) = Z.to_nat (end_ - i)) as Hlen.
      { unfold slice. rewrite length_take, length_drop. subst end_.
        destruct (Z.ltb_spec (Z.of_nat (length l)) (i + n)); lia. }
      split; [|split].
      * simpl. rewrite Hcat. unfold slice, end_.
        destruct (Z.ltb_spec (Z.of_nat (length l)) (i + n)).
        -- rewrite (drop_ge l (Z.to_nat (i + n))) by lia.
           rewrite app_nil_r. apply take_ge. rewrite length_drop. lia.
        -- replace (Z.to_nat (i + n)) with (Z.to_nat i + Z.to_nat (i + n - i))%nat by lia.
           rewrite <- drop_drop. apply take_drop.
      * split.
        -- constructor; [|done]. rewrite Hlen. subst end_.
           destruct (Z.ltb_spec (Z.of_nat (length l)) (i + n)); lia.
        -- intros [|k] b Hk Hlast; simpl in Hk, Hlast.
           ++ injection Hk as <-. rewrite Hlen.
              destruct bs as [|b' bs']; [simpl in Hlast; lia|].
              apply Forall_cons in Hall as [[Hpos _] _].
              assert (0 < length (drop (Z.to_nat (i + n)) l))%nat as Hrest.
              { rewrite <- Hcat. simpl. rewrite length_app. lia. }
              rewrite length_drop in Hrest. subst end_.
              destruct (Z.ltb_spec (Z.of_nat (length l)) (i + n)); lia.
           ++ apply (Hfull k b Hk). lia.
      * intros St body st. rewrite batchLoop_unfold.
        destruct (Z.ltb_spec i (Z.of_nat (length l))); [|lia].
        cbv zeta. fold end_. simpl.
        destruct (body (slice l i end_) st); [apply Hloop|done].
    + exists []. split; [|split].
      * simpl. symmetry. apply drop_ge. lia.
      * split; [constructor|]. intros k b Hk. by rewrite lookup_nil in Hk.
      * intros St body st. rewrite batchLoop_unfold.
        destruct (Z.ltb_spec i (Z.of_nat (length l))); [lia|done].
Qed.

Lemma foldBatches_collect {A} (bs acc : list (list A)) :
  foldBatches (fun batch acc => Some (acc ++ [batch])) bs acc = Some (acc ++ bs).
Proof.
  revert acc. induction bs as [|b bs IH]; intros acc; simpl.
  - by rewrite app_nil_r.
  - rewrite IH. by rewrite <- app_assoc.
Qed.

Lemma batches_spec {A} (l : list A) (limit : Z) :
  0 < limit →
  ∃ bs,
    batches limit l = Some bs
    ∧ concat bs = l
    ∧ Forall (λ b, (0 < length b)%nat ∧ Z.of_nat (length b) <= limit) bs
    ∧ (∀ k b, bs !! k = Some b → (S k < length bs)%nat → Z.of_nat (length b) = limit)
    ∧ ∀ St (body : list A -> St -> option St) st,
        batchLoop (length l) 0 limit l body st = foldBatches body bs st.
Proof.
  intros Hlimit.
  destruct (batchLoop_spec limit l Hlimit (length l) 0) as (bs & Hcat & [Hall Hfull] & Hloop);
    [lia..|].
  exists bs. split; [|split; [|split; [|split]]]; try done.
  unfold batches. rewrite Hloop. apply foldBatches_collect.
Qed.

(** ** The number of installations per job *)

Lemma isDigit_not_sign c :
  isDigit c = true → bool_decide (c = "-"%char) = false ∧ bool_decide (c = "+"%char) = false.
Proof.
  intros H. split; apply bool_decide_eq_false; intros ->; vm_compute in H; discriminate.
Qed.

Lemma isDigit_range c : isDigit c = true → 0 <= digit c <= 9.
Proof. unfold isDigit, digit. intros H. apply andb_true_iff in H as [H1 H2]. lia. Qed.

Lemma Atoi_1_digit a : isDigit a = true → strconv.Atoi (String a "") = (digit a, None).
Proof.
  intros H. destruct (isDigit_not_sign a H) as [Hm Hp].
  unfold strconv.Atoi. cbn [String.length Nat.ltb Nat.leb andb orb].
  rewrite Hm, Hp. cbn [andb orb strconv.Atoi_fast]. rewrite H.
  unfold digit. f_equal; lia.
Qed.

Lemma Atoi_2_digits a b :
  isDigit a = true → isDigit b = true →
  strconv.Atoi (String a (String b "")) = (digit a * 10 + digit b, None).
Proof.
  intros Ha Hb. destruct (isDigit_not_sign a Ha) as [Hm Hp].
  unfold strconv.Atoi. cbn [String.length Nat.ltb Nat.leb andb orb].
  rewrite Hm, Hp. cbn [andb orb strconv.Atoi_fast]. rewrite Ha, Hb.
  unfold digit. f_equal; lia.
Qed.

Lemma installationPerJob_1_digit getenv a :
  getenv InstallationsPerJobEnvName = String a "" → isDigit a = true →
  installationPerJob getenv = if digit a =? 0 then InstallationsPerJob else digit a.
Proof.
  intros Hs Ha. unfold installationPerJob. rewrite Hs.
  cbn [regexp.MatchString_1_2_digits]. rewrite Ha. by rewrite Atoi_1_digit.
Qed.

Lemma installationPerJob_2_digits getenv a b :
  getenv InstallationsPerJobEnvName = String a (String b "") →
  isDigit a = true → isDigit b = true →
  installationPerJob getenv
  = if digit a * 10 + digit b =? 0 then InstallationsPerJob else digit a * 10 + digit b.
Proof.
  intros Hs Ha Hb. unfold installationPerJob. rewrite Hs.
  cbn [regexp.MatchString_1_2_digits]. rewrite Ha, Hb. cbn [andb].
  by rewrite Atoi_2_digits.
Qed.

Lemma installationPerJob_default getenv :
  regexp.MatchString_1_2_digits (getenv InstallationsPerJobEnvName) = false →
  installationPerJob getenv = InstallationsPerJob.
Proof. intros H. unfold installationPerJob. by rewrite H. Qed.

Lemma installationPerJob_range getenv : 0 < installationPerJob getenv <= 99.
Proof.
  destruct (regexp.MatchString_1_2_digits (getenv InstallationsPerJobEnvName)) eqn:Hm.
  - destruct (getenv InstallationsPerJobEnvName) as [|a [|b [|c s]]] eqn:Hs;
      cbn [regexp.MatchString_1_2_digits] in Hm; try discriminate.
    + rewrite (installationPerJob_1_digit getenv a Hs Hm).
      pose proof (isDigit_range a Hm). unfold InstallationsPerJob.
      destruct (Z.eqb_spec (digit a) 0); lia.
    + apply andb_true_iff in Hm as [Ha Hb].
      rewrite (installationPerJob_2_digits getenv a b Hs Ha Hb).
      pose proof (isDigit_range a Ha). pose proof (isDigit_range b Hb).
      unfold InstallationsPerJob.
      destruct (Z.eqb_spec (digit a * 10 + digit b) 0); lia.
  - rewrite installationPerJob_default by done. unfold InstallationsPerJob. lia.
Qed.

(** ** The accumulators of [CreateRenovaterJob] *)

Section collect.
Context (getenv : string -> string) (slug : string).

Lemma collectInstallations_snoc l x :
  collectInstallations getenv slug (l ++ [x])
  = (<[fmt.Sprint (id x) := token x]> (secretTokensOf getenv slug l),
     <[fmt.Sprint (id x) +:+ ".js" := generateConfigJS getenv slug (repositories x)]>
       (configmapsOf getenv slug l),
     renovateCmdsOf getenv slug l ++ [renovateCmd x]).
Proof.
  unfold secretTokensOf, configmapsOf, renovateCmdsOf, collectInstallations.
  rewrite fold_left_app. cbn [fold_left].
  by destruct (fold_left _ l _) as [[secretTokens configmaps] renovateCmds].
Qed.

Lemma renovateCmdsOf_map l : renovateCmdsOf getenv slug l = renovateCmd <$> l.
Proof.
  induction l as [|x l IH] using rev_ind; [done|].
  unfold renovateCmdsOf in *. rewrite collectInstallations_snoc, fmap_app. simpl.
  unfold renovateCmdsOf. by rewrite IH.
Qed.

Lemma secretTokensOf_lookup l key :
  secretTokensOf getenv slug l !! key
  = last (token <$> filter (λ x, fmt.Sprint (id x) = key) l).
Proof.
  induction l as [|x l IH] using rev_ind; [done|].
  unfold secretTokensOf at 1. rewrite collectInstallations_snoc. cbn [fst snd].
  rewrite filter_app, fmap_app, filter_cons, filter_nil.
  destruct (decide (fmt.Sprint (id x) = key)) as [->|Hne].
  - rewrite lookup_insert_eq, fmap_cons, fmap_nil. symmetry. apply last_snoc.
  - by rewrite lookup_insert_ne, fmap_nil, app_nil_r.
Qed.

Lemma configmapsOf_lookup l key :
  configmapsOf getenv slug l !! key
  = last ((λ x, generateConfigJS getenv slug (repositories x))
            <$> filter (λ x, fmt.Sprint (id x) +:+ ".js" = key) l).
Proof.
  induction l as [|x l IH] using rev_ind; [done|].
  unfold configmapsOf at 1. rewrite collectInstallations_snoc. cbn [fst snd].
  rewrite filter_app, fmap_app, filter_cons, filter_nil.
  destruct (decide (fmt.Sprint (id x) +:+ ".js" = key)) as [->|Hne].
  - rewrite lookup_insert_eq, fmap_cons, fmap_nil. symmetry. apply last_snoc.
  - by rewrite lookup_insert_ne, fmap_nil, app_nil_r.
Qed.

Lemma filter_id_absent l (n : Z) :
  n ∉ id <$> l → filter (λ y, id y = n) l = [].
Proof.
  induction l as [|y l IH]; intros Hn; [done|].
  rewrite fmap_cons in Hn. apply not_elem_of_cons in Hn as [Hne Hn].
  rewrite filter_cons, decide_False by done. by apply IH.
Qed.


Lemma string_app_inj_r s t u : s +:+ u = t +:+ u → s = t.
Proof.
  revert t. induction s as [|c s IH]; intros [|d t] H;
    rewrite ?string_app_cons, ?string_app_nil_l in H; try done.
  - apply (f_equal String.length) in H. simpl in H. rewrite string_length_app in H. lia.
  - apply (f_equal String.length) in H. simpl in H. rewrite string_length_app in H. lia.
  - injection H as -> H. f_equal. by apply IH.
Qed.



Lemma configmapsOf_from l :
  configmapsOf getenv slug l
  = configmapsFrom getenv slug ((λ x, (id x, repositories x)) <$> l).
Proof.
  induction l as [|x l IH] using rev_ind; [done|].
  unfold configmapsOf at 1. rewrite collectInstallations_snoc. cbn [fst snd].
  rewrite IH, fmap_app. unfold configmapsFrom. by rewrite fold_left_app.
Qed.

Lemma renovateCmdsOf_ids l :
  renovateCmdsOf getenv slug l
  = (λ n, renovateCmd {| id := n; token := ""; repositories := [] |}) <$> (id <$> l).
Proof. rewrite renovateCmdsOf_map, <- list_fmap_compose. done. Qed.

End collect.

(** ** [Sprintf] on a format cut at its verbs *)

Lemma Sprintf_text c format a :
  c ≠ "%"%char → fmt.Sprintf (String c format) a = String c (fmt.Sprintf format a).
Proof.
  intros Hc. destruct c as [[] [] [] [] [] [] [] []]; try done.
Qed.

Lemma Sprintf_noVerb text format a :
  noVerb text = true → fmt.Sprintf (text +:+ format) a = text +:+ fmt.Sprintf format a.
Proof.
  induction text as [|c text IH]; intros H; [done|].
  simpl in H. apply andb_true_iff in H as [Hc H].
  apply negb_true_iff, bool_decide_eq_false in Hc.
  rewrite !string_app_cons, Sprintf_text by done. by rewrite IH.
Qed.

Lemma Sprintf_noVerb_nil text : noVerb text = true → fmt.Sprintf text [] = text.
Proof.
  induction text as [|c text IH]; intros H; [done|].
  simpl in H. apply andb_true_iff in H as [Hc H].
  apply negb_true_iff, bool_decide_eq_false in Hc.
  rewrite Sprintf_text by done. by rewrite IH.
Qed.

Lemma Sprintf_s format s a :
  fmt.Sprintf ("%s" +:+ format) (fmt.Str s :: a) = s +:+ fmt.Sprintf format a.
Proof. reflexivity. Qed.

Lemma Sprintf_interleave pieces operands :
  Forall (λ p, noVerb p = true) pieces →
  length pieces = S (length operands) →
  fmt.Sprintf (strings.Join pieces "%s") (fmt.Str <$> operands)
  = interleave pieces operands.
Proof.
  revert operands. induction pieces as [|p pieces IH]; intros operands Hall Hlen; [done|].
  apply Forall_cons in Hall as [Hp Hall].
  destruct pieces as [|q pieces].
  - destruct operands; [|done]. simpl. by apply Sprintf_noVerb_nil.
  - destruct operands as [|a operands]; [done|].
    change (strings.Join (p :: q :: pieces) "%s")
      with (p +:+ "%s" +:+ strings.Join (q :: pieces) "%s").
    rewrite Sprintf_noVerb by done. rewrite fmap_cons, Sprintf_s.
    rewrite IH; [done|done|]. simpl in Hlen. simpl. lia.
Qed.

Lemma generateConfigJS_shape getenv slug :
  ∃ pre post, ∀ repositories,
    generateConfigJS getenv slug repositories
    = pre +:+ "repositories: " +:+ marshalRepositories repositories +:+ "," +:+ post.
Proof.
  set (ps := cutAtVerbs template).
  set (pattern := if decide (getenv RenovateMatchPatternEnvName = "")
                  then DefaultRenovateMatchPattern else getenv RenovateMatchPatternEnvName).
  set (p3 := String.substring 0 (String.length (ps !!! 3%nat) - 14) (ps !!! 3%nat)).
  set (p4 := String.substring 1 (String.length (ps !!! 4%nat) - 1) (ps !!! 4%nat)).
  exists (ps !!! 0%nat +:+ slug +:+ ps !!! 1%nat +:+ slug +:+ ps !!! 2%nat +:+ slug +:+ p3),
         (p4 +:+ pattern +:+ ps !!! 5%nat +:+ pattern +:+ ps !!! 6%nat).
  intros repositories. unfold generateConfigJS. cbv zeta. fold pattern.
  generalize (marshalRepositories repositories) as data. intros data.
  replace template with (strings.Join ps "%s") by (by vm_compute).
  change [fmt.Str slug; fmt.Str slug; fmt.Str slug; fmt.Str data; fmt.Str pattern;
          fmt.Str pattern]
    with (fmt.Str <$> [slug; slug; slug; data; pattern; pattern]).
  rewrite Sprintf_interleave.
  - replace ps with [ps !!! 0%nat; ps !!! 1%nat; ps !!! 2%nat; p3 +:+ "repositories: ";
                     "," +:+ p4; ps !!! 5%nat; ps !!! 6%nat] at 1 by (by vm_compute).
    cbn [interleave]. by rewrite !string_app_assoc.
  - vm_compute. repeat constructor.
  - by vm_compute.
Qed.

(** ** The document determines the repository list *)

Lemma encodeStringBody_cons b0 rest :
  json.htmlSafe b0 = true →
  json.encodeStringBody (String b0 rest) = String b0 (json.encodeStringBody rest).
Proof.
  intros Hsafe.
  assert (utf8.between 0 127 b0 = true) as Hascii.
  { pose proof Hsafe as Hb. unfold json.htmlSafe in Hb.
    do 5 (apply andb_true_iff in Hb as [Hb _]).
    unfold utf8.between in *. apply andb_true_iff in Hb as [H1 H2].
    rewrite H2, andb_true_r. apply Z.leb_le. apply Z.leb_le in H1. lia. }
  cbn [json.encodeStringBody]. rewrite Hascii, Hsafe. reflexivity.
Qed.

Lemma encodeStringBody_plain s : plain s = true → json.encodeStringBody s = s.
Proof.
  induction s as [|c s IH]; intros H; [done|].
  cbn [plain] in H. apply andb_true_iff in H as [Hc Hs].
  rewrite encodeStringBody_cons by done. by rewrite IH.
Qed.

Lemma htmlSafe_not_dquote c : json.htmlSafe c = true → c ≠ "034"%char.
Proof. intros H ->. by vm_compute in H. Qed.

Lemma quoted_cancel s s' x y :
  plain s = true → plain s' = true →
  s +:+ String "034"%char x = s' +:+ String "034"%char y → s = s' ∧ x = y.
Proof.
  revert s'. induction s as [|c s IH]; intros [|c' s'] Hs Hs' H;
    rewrite ?string_app_cons, ?string_app_nil_l in H; cbn [plain] in Hs, Hs';
    try (apply andb_true_iff in Hs as [Hc Hs]);
    try (apply andb_true_iff in Hs' as [Hc' Hs']).
  - injection H as ->. done.
  - injection H as <- _. by apply htmlSafe_not_dquote in Hc'.
  - injection H as -> _. by apply htmlSafe_not_dquote in Hc.
  - injection H as -> H. destruct (IH s' Hs Hs' H) as [-> ->]. done.
Qed.

Lemma encodeString_app s x :
  json.encodeString s +:+ x
  = String "034"%char (json.encodeStringBody s +:+ String "034"%char x).
Proof. unfold json.encodeString, dquote. by rewrite !string_app_assoc. Qed.

Lemma encodeString_cancel s s' x y :
  plain s = true → plain s' = true →
  json.encodeString s +:+ x = json.encodeString s' +:+ y → s = s' ∧ x = y.
Proof.
  intros Hs Hs'. rewrite !encodeString_app, !encodeStringBody_plain by done.
  intros H. injection H as H. by apply quoted_cancel.
Qed.

(** Lists joined by commas and closed by [close] can be told apart when
    the elements can and begin with neither a comma nor [close]. *)
Lemma Join_cons e rest sep :
  strings.Join (e :: rest) sep
  = e +:+ match rest with [] => "" | _ => sep +:+ strings.Join rest sep end.
Proof.
  destruct rest; [|done]. simpl. induction e as [|c e IH]; [done|].
  by rewrite string_app_cons, <- IH.
Qed.

Section join_cancel.
Context {A : Type} (enc : A → string) (P : A → Prop) (close : ascii).
Context (Hcancel : ∀ a a' x y, P a → P a' → enc a +:+ x = enc a' +:+ y → a = a' ∧ x = y).
Context (Hhead : ∀ a, P a → ∃ c t, enc a = String c t ∧ c ≠ close ∧ c ≠ ","%char).
Context (Hclose : close ≠ ","%char).

Lemma Join_cancel l l' x y :
  Forall P l → Forall P l' →
  strings.Join (enc <$> l) "," +:+ String close x
  = strings.Join (enc <$> l') "," +:+ String close y →
  l = l' ∧ x = y.
Proof.
  revert l'. induction l as [|a l IH]; intros [|a' l'] Hl Hl' H.
  - by injection H as ->.
  - exfalso. apply Forall_cons in Hl' as [Ha' _].
    destruct (Hhead a' Ha') as (c & t & Hc & Hne & _).
    rewrite fmap_cons, Join_cons, Hc in H.
    rewrite string_app_nil_l, !string_app_cons in H. by injection H as <- _.
  - exfalso. apply Forall_cons in Hl as [Ha _].
    destruct (Hhead a Ha) as (c & t & Hc & Hne & _).
    rewrite fmap_cons, Join_cons, Hc in H.
    rewrite string_app_nil_l, !string_app_cons in H. by injection H as -> _.
  - apply Forall_cons in Hl as [Ha Hl]. apply Forall_cons in Hl' as [Ha' Hl'].
    rewrite !fmap_cons, !Join_cons, !string_app_assoc in H.
    apply Hcancel in H as [<- H]; [|done..].
    destruct l as [|b l]; destruct l' as [|b' l']; cbn [fmap list_fmap] in H.
    + rewrite !string_app_nil_l in H. by injection H as ->.
    + exfalso. rewrite string_app_nil_l, string_app_assoc in H.
      rewrite !string_app_cons in H. by injection H as ->.
    + exfalso. rewrite string_app_nil_l, string_app_assoc in H.
      rewrite !string_app_cons in H. by injection H as <-.
    + rewrite !string_app_assoc in H. rewrite !string_app_cons, !string_app_nil_l in H.
      injection H as H. destruct (IH (b' :: l') Hl Hl' H) as [-> ->]. done.
Qed.

End join_cancel.

Lemma marshalRenovateRepository_app r x :
  marshalRenovateRepository r +:+ x
  = ("{" +:+ dquote +:+ "repository" +:+ dquote +:+ ":")
    +:+ json.encodeString (Repository r) +:+ entryTail (BaseBranches r) x.
Proof.
  unfold marshalRenovateRepository, entryTail, json.encodeArray.
  destruct (BaseBranches r) as [|b bs]; cbn [length Nat.eqb];
    rewrite !string_app_assoc; reflexivity.
Qed.

Lemma encodeString_head s : ∃ c t, json.encodeString s = String c t ∧ c ≠ "]"%char ∧ c ≠ ","%char.
Proof. exists "034"%char. eexists. split; [reflexivity|]. split; discriminate. Qed.

Lemma marshalRenovateRepository_head r :
  ∃ c t, marshalRenovateRepository r = String c t ∧ c ≠ "]"%char ∧ c ≠ ","%char.
Proof. exists "{"%char. eexists. split; [reflexivity|]. split; discriminate. Qed.

Lemma marshalRenovateRepository_cancel r r' x y :
  plainRepository r → plainRepository r' →
  marshalRenovateRepository r +:+ x = marshalRenovateRepository r' +:+ y →
  r = r' ∧ x = y.
Proof.
  intros [Hn Hb] [Hn' Hb']. rewrite !marshalRenovateRepository_app. intros H.
  apply (inj (String.app _)) in H.
  apply encodeString_cancel in H as [Hname H]; [|done..].
  destruct r as [name bb], r' as [name' bb']. cbn [Repository BaseBranches] in *.
  subst name'. unfold entryTail in H.
  destruct bb as [|b bb]; destruct bb' as [|b' bb'].
  - by injection H as ->.
  - exfalso. rewrite !string_app_assoc in H. discriminate H.
  - exfalso. rewrite !string_app_assoc in H. discriminate H.
  - apply (inj (String.app _)) in H.
    apply (Join_cancel json.encodeString (λ b, plain b = true) "]") in H
      as [-> H]; try done.
    + by injection H as ->.
    + intros. by apply encodeString_cancel.
    + intros. apply encodeString_head.
Qed.

Lemma marshalRepositories_inj l l' :
  Forall plainRepository l → Forall plainRepository l' →
  marshalRepositories l = marshalRepositories l' → l = l'.
Proof.
  intros Hl Hl'. unfold marshalRepositories, json.encodeArray. intros H.
  apply (inj (String.app _)) in H.
  apply (Join_cancel marshalRenovateRepository plainRepository "]") in H as [-> _]; try done.
  - intros. by apply marshalRenovateRepository_cancel.
  - intros. apply marshalRenovateRepository_head.
Qed.

Lemma generateConfigJS_inj getenv slug l l' :
  Forall plainRepository l → Forall plainRepository l' →
  generateConfigJS getenv slug l = generateConfigJS getenv slug l' → l = l'.
Proof.
  intros Hl Hl'. destruct (generateConfigJS_shape getenv slug) as (pre & post & Hshape).
  rewrite !Hshape. intros H.
  do 2 apply (inj (String.app _)) in H.
  apply string_app_inj_r in H. by apply marshalRepositories_inj.
Qed.

(** ** Runs of [CreateRenovaterJob] and [Reconcile] *)

Section reconcile_facts.
Context (env : Env).

Lemma CreateRenovaterJob_nil slug tr :
  CreateRenovaterJob env [] slug tr = Some (None, tr).
Proof. reflexivity. Qed.

Lemma CreateRenovaterJob_first_call batch slug tr :
  batch ≠ [] →
  ∃ res evs,
    CreateRenovaterJob env batch slug tr
    = Some (res, tr ++ Call_Client_Create
                         (OSecret (newSecret (buildServiceNamespaceName env) (jobName env tr)
                                     (secretTokensOf (os_Getenv env) slug batch))) :: evs)
    ∧ secretsCreated evs = []
    ∧ (∀ job, Call_Client_Create (OJob job) ∈ evs →
         job = newJob (os_Getenv env) (buildServiceNamespaceName env) (jobName env tr)
                 (renovateCmd <$> batch))
    ∧ (∀ configMap, Call_Client_Create (OConfigMap configMap) ∈ evs →
         configMap = newConfigMap (buildServiceNamespaceName env) (jobName env tr)
                       (configmapsOf (os_Getenv env) slug batch))
    ∧ (res = None → ∃ evs', evs =
         Call_Client_Create
           (OConfigMap (newConfigMap (buildServiceNamespaceName env) (jobName env tr)
                          (configmapsOf (os_Getenv env) slug batch)))
         :: Call_Client_Create
              (OJob (newJob (os_Getenv env) (buildServiceNamespaceName env) (jobName env tr)
                       (renovateCmd <$> batch)))
         :: evs').
Proof.
  intros Hne. unfold CreateRenovaterJob.
  destruct batch as [|x batch]; [done|]. cbn [length Nat.eqb].
  pose proof (renovateCmdsOf_map (os_Getenv env) slug (x :: batch)) as Hcmds.
  unfold secretTokensOf, configmapsOf, renovateCmdsOf in *.
  unfold bind at 1. unfold peek at 1. unfold bind at 1. unfold peek at 1.
  fold (jobName env tr).
  destruct (collectInstallations (os_Getenv env) slug (x :: batch))
    as [[secretTokens configmaps] renovateCmds].
  cbn [fst snd] in *. subst renovateCmds. cbn [fmap list_fmap length Nat.eqb].
  unfold bind, Client_Create, Log_Info, ownAndUpdate, Client_Update, call, ret.
  repeat match goal with
  | |- context [match ?o with Some _ => _ | None => _ end] =>
      lazymatch o with
      | client_Create _ _ _ => destruct o
      | client_Update _ _ _ => destruct o
      end
  | |- context [match ?o with inl _ => _ | inr _ => _ end] =>
      lazymatch o with
      | controllerutil_SetOwnerReference _ _ _ => destruct o
      end
  end;
  rewrite <- ?app_assoc; cbn [app];
  (eexists _, _; split; [reflexivity|]; split; [reflexivity|]; split; [|split]);
  try (intros job Hin;
       repeat (apply elem_of_cons in Hin as [Hin|Hin]; [by simplify_eq|]);
       by apply elem_of_nil in Hin);
  intros; simplify_eq; eauto.
Qed.

Lemma secretsCreated_app tr1 tr2 :
  secretsCreated (tr1 ++ tr2) = secretsCreated tr1 ++ secretsCreated tr2.
Proof. apply omap_app. Qed.

Lemma createJobOrLog_logs slug batch tr0 e tr1 :
  CreateRenovaterJob env batch slug tr0 = Some (Some e, tr1) →
  createJobOrLog env slug batch tr0
  = Some (tt, tr1 ++ [Call_Log_Error e "failed to create a job"]).
Proof. intros H. unfold createJobOrLog, bind. by rewrite H. Qed.

Lemma runBatch_total slug batch tr :
  batch ≠ [] →
  ∃ evs, runBatch env slug batch tr = Some (tr ++ evs)
         ∧ secretsCreated evs = [secretTokensOf (os_Getenv env) slug batch].
Proof.
  intros Hne.
  destruct (CreateRenovaterJob_first_call batch slug tr Hne) as (res & evs & Hrun & Hsec & _).
  match type of Hrun with _ = Some (_, _ ++ ?c :: _) => set (created := c) in * end.
  unfold runBatch, createJobOrLog, bind. rewrite Hrun.
  destruct res as [e|].
  - exists ([created] ++ evs ++ [Call_Log_Error e "failed to create a job"]). split.
    + unfold Log_Error, call. simpl. by rewrite <- app_assoc.
    + rewrite !secretsCreated_app, Hsec. done.
  - exists ([created] ++ evs). split; [done|].
    rewrite secretsCreated_app, Hsec. done.
Qed.

Lemma runBatches_total slug bs tr :
  Forall (λ b, b ≠ []) bs →
  ∃ evs, foldBatches (runBatch env slug) bs tr = Some (tr ++ evs)
         ∧ secretsCreated evs = secretTokensOf (os_Getenv env) slug <$> bs.
Proof.
  revert tr. induction bs as [|b bs IH]; intros tr Hall.
  - exists []. by rewrite app_nil_r.
  - apply Forall_cons in Hall as [Hb Hall].
    destruct (runBatch_total slug b tr Hb) as (evs1 & Hrun & Hsec1).
    destruct (IH (tr ++ evs1) Hall) as (evs2 & Hrest & Hsec2).
    exists (evs1 ++ evs2). simpl. rewrite Hrun, Hrest, app_assoc. split; [done|].
    by rewrite secretsCreated_app, Hsec1, Hsec2.
Qed.

Lemma Reconcile_unfold tr :
  Reconcile env tr
  = match pacSecretData env tr with
    | Some data =>
        reconcileWithSecret env data
          (tr ++ [Call_Client_Get (buildServiceNamespaceName env)
                    (PipelinesAsCodeSecretName env)])
    | None =>
        match client_Get env tr (buildServiceNamespaceName env)
                (PipelinesAsCodeSecretName env) with
        | inr err =>
            Some (Result_zero, None,
                  tr ++ [Call_Client_Get (buildServiceNamespaceName env)
                           (PipelinesAsCodeSecretName env);
                         Call_EventRecorder_Event "Warning" "ErrorReadingPaCSecret" err;
                         Call_Log_Error err
                           "failed to get Pipelines as Code secret in %s namespace: %w"])
        | inl _ => None
        end
    end.
Proof.
  unfold Reconcile, pacSecretData, bind, Client_Get, call.
  destruct (client_Get env tr _ _) as [data|err]; [done|].
  destruct (IsNotFound err); [done|]. simpl.
  unfold bind, EventRecorder_Event, Log_Error, call, ret. simpl.
  by rewrite <- !app_assoc.
Qed.

Section active.
Context (tr : Trace) (data : gmap string string) (githubAppId : Z).
Let ns := buildServiceNamespaceName env.
Let privateKey := default "" (data !! PipelinesAsCode_githubPrivateKey env).
Let tr1 := tr ++ [Call_Client_Get ns (PipelinesAsCodeSecretName env)].
Let tr2 := tr1 ++ [Call_GetInstallations githubAppId privateKey].
Let tr3 := tr2 ++ [Call_Client_List].
Context (Hdata : pacSecretData env tr = Some data).
Context (HisApp : IsPaCApplicationConfigured env "github" data = true).
Context (Hparse : strconv.ParseInt (default "" (data !! PipelinesAsCode_githubAppIdKey env))
                  = (githubAppId, None)).

Lemma Reconcile_directory_failure err :
  github_GetInstallations env tr1 githubAppId privateKey = inr err →
  Reconcile env tr = Some (Result_zero, Some err, tr2).
Proof.
  intros Hinst. rewrite Reconcile_unfold, Hdata.
  unfold reconcileWithSecret. rewrite HisApp, Hparse. cbn [negb].
  unfold bind, GetInstallations, call. fold ns privateKey tr1. by rewrite Hinst.
Qed.

Lemma Reconcile_list_failure insts slug err :
  github_GetInstallations env tr1 githubAppId privateKey = inl (insts, slug) →
  client_List env tr2 = inr err →
  Reconcile env tr
  = Some (Result_zero, Some err, tr3 ++ [Call_Log_Error err "failed to list Components"]).
Proof.
  intros Hinst Hlist. rewrite Reconcile_unfold, Hdata.
  unfold reconcileWithSecret. rewrite HisApp, Hparse. cbn [negb].
  unfold bind, GetInstallations, call. fold ns privateKey tr1. rewrite Hinst.
  unfold Client_List, call. fold tr2. rewrite Hlist. reflexivity.
Qed.

Lemma Reconcile_batches insts slug items :
  github_GetInstallations env tr1 githubAppId privateKey = inl (insts, slug) →
  client_List env tr2 = inl items →
  let matched := matchInstallations (buildComponentUrlToBranchMap items) insts in
  ∃ bs evs,
    batches (installationPerJob (os_Getenv env)) matched = Some bs
    ∧ foldBatches (runBatch env slug) bs tr3 = Some (tr3 ++ evs)
    ∧ Reconcile env tr
      = Some ({| Requeue := false; RequeueAfter := NextReconcile |}, None, tr3 ++ evs)
    ∧ secretsCreated evs = secretTokensOf (os_Getenv env) slug <$> bs.
Proof.
  intros Hinst Hlist matched.
  destruct (batches_spec matched
              (installationPerJob (os_Getenv env)))
    as (bs & Hbs & _ & Hall & _ & Hloop).
  { apply installationPerJob_range. }
  destruct (runBatches_total slug bs tr3) as (evs & Hrun & Hsec).
  { eapply Forall_impl; [exact Hall|]. intros b [Hpos _] ->. simpl in Hpos. lia. }
  exists bs, evs. split; [done|]. split; [done|]. split; [|done].
  rewrite Reconcile_unfold, Hdata.
  unfold reconcileWithSecret. rewrite HisApp, Hparse. cbn [negb].
  unfold bind, GetInstallations, call. fold ns privateKey tr1. rewrite Hinst.
  unfold Client_List, call. fold tr2. rewrite Hlist. cbv zeta. fold matched. fold tr3.
  change (λ batch tr0, snd <$> createJobOrLog env slug batch tr0) with (runBatch env slug).
  by rewrite Hloop, Hrun.
Qed.

End active.

Lemma Reconcile_not_configured tr data :
  pacSecretData env tr = Some data →
  IsPaCApplicationConfigured env "github" data = false →
  Reconcile env tr
  = Some (Result_zero, None,
          tr ++ [Call_Client_Get (buildServiceNamespaceName env) (PipelinesAsCodeSecretName env);
                 Call_Log_Info "GitHub App is not set"]).
Proof.
  intros Hdata HisApp. rewrite Reconcile_unfold, Hdata.
  unfold reconcileWithSecret. rewrite HisApp. cbn [negb].
  unfold bind, Log_Info, call, ret. by rewrite <- app_assoc.
Qed.

End reconcile_facts.

(** ** Identifiers stay distinct from the directory to the batches *)






(** * The claims *)

(** C1: the output of the matcher is, in order, the installations that
    have at least one repository whose HTML URL is a key of the map, each
    with its identifier, its token and the repositories the matcher kept;
    the repositories kept are, in order, those whose HTML URL is a key of
    the map; so no installation of the output has an empty list, and an
    installation without a tracked repository is not in the output. *)
Theorem C1_matcher_keeps_tracked_only (m : gmap string string)
    (insts : list ApplicationInstallation) :
  let tracked := λ r, is_Some (m !! GetHTMLURL r) in
  let out := matchInstallations m insts in
  out = (λ inst, {| id := ID inst; token := Token inst;
                    repositories := matchRepositories m (Repositories inst) |})
          <$> filter (λ inst, Exists tracked (Repositories inst)) insts
  ∧ (∀ repos, Repository <$> matchRepositories m repos
              = GetFullName <$> filter tracked repos)
  ∧ Forall (λ x, repositories x ≠ []) out.
Proof.
  intros tracked out. split; [apply matchInstallations_filter|].
  split; [apply matchRepositories_names|].
  unfold out. rewrite matchInstallations_filter.
  apply Forall_fmap, Forall_forall. intros inst Hin.
  apply list_elem_of_filter in Hin as [Hk _]. simpl.
  intros Hnil. by apply matchRepositories_nil in Hnil.
Qed.

(** C2: for a positive limit the batching loop comes to an end, the batches
    it hands out, joined in order, are the list it was given, no batch is
    empty or longer than the limit, and every batch but the last has exactly
    [limit] entries.  Whatever the body of the loop does, the loop is the
    body run over these batches in order. *)
Theorem C2_batching_total_and_order_preserving {A} (l : list A) (limit : Z) :
  0 < limit →
  ∃ bs,
    batches limit l = Some bs
    ∧ concat bs = l
    ∧ Forall (λ b, (0 < length b)%nat ∧ Z.of_nat (length b) <= limit) bs
    ∧ (∀ k b, bs !! k = Some b → (S k < length bs)%nat → Z.of_nat (length b) = limit)
    ∧ ∀ St (body : list A -> St -> option St) st,
        batchLoop (length l) 0 limit l body st = foldBatches body bs st.
Proof.
  intros Hlimit.
  destruct (batchLoop_spec limit l Hlimit (length l) 0)
    as (bs & Hcat & [Hall Hfull] & Hloop); [lia..|].
  exists bs. split.
  { unfold batches. rewrite Hloop. apply foldBatches_collect. }
  split; [exact Hcat|]. split; [exact Hall|]. split; [exact Hfull|exact Hloop].
Qed.

Lemma C2_witness :
  ∃ bs, batches 2 exampleBatch = Some bs ∧ concat bs = exampleBatch.
Proof.
  destruct (C2_batching_total_and_order_preserving exampleBatch 2) as (bs & H1 & H2 & _).
  - lia.
  - exists bs. split; assumption.
Defined.

(** C3, as stated, fails: the key of a component whose URL ends in [.git/]
    still ends in [.git], so the component is not found under the HTML URL
    of its repository. *)
Lemma C3_counterexample :
  let items := [ {| Spec_Source_GitSource :=
                      Some {| URL := "https://github.com/o/r.git/"; Revision := "main" |} |} ] in
  normalizeUrl "https://github.com/o/r.git/" = "https://github.com/o/r.git"
  ∧ strings.HasSuffix (normalizeUrl "https://github.com/o/r.git/") ".git" = true
  ∧ buildComponentUrlToBranchMap items !! "https://github.com/o/r.git" = Some "main"
  ∧ buildComponentUrlToBranchMap items !! "https://github.com/o/r" = None
  ∧ strings.HasSuffix (normalizeUrl "https://github.com/o/r//") "/" = true
  ∧ ¬ (∀ url, strings.HasSuffix (normalizeUrl url) ".git" = false
              ∧ strings.HasSuffix (normalizeUrl url) "/" = false).
Proof.
  cbv zeta. do 5 (split; [by vm_compute|]).
  intros H. destruct (H "https://github.com/o/r.git/") as [Hgit _].
  by vm_compute in Hgit.
Qed.

(** C3, amended: the key is the URL with one trailing [.git] removed, if
    there is one, and then one trailing slash removed, if there is one; so
    the URL is its key followed by nothing, [/], [.git] or [/.git].  A
    repository is matched when its HTML URL is equal, as a string, to the
    key of some component, and of the components with the same key the
    last one in the list gives the branch. *)
Theorem C3_tracked_map_keys :
  (∀ url, let key := normalizeUrl url in
          url = key ∨ url = key +:+ "/" ∨ url = key +:+ ".git" ∨ url = key +:+ "/.git")
  ∧ (∀ p, normalizeUrl (p +:+ "/") = p
          ∧ normalizeUrl (p +:+ ".git") = strings.TrimSuffix p "/")
  ∧ (∀ items key,
       buildComponentUrlToBranchMap items !! key
       = last (Revision <$> filter (λ g, normalizeUrl (URL g) = key) (gitSources items)))
  ∧ (∀ items repos,
       Repository <$> matchRepositories (buildComponentUrlToBranchMap items) repos
       = GetFullName <$>
           filter (λ r, Exists (λ g, normalizeUrl (URL g) = GetHTMLURL r) (gitSources items))
                  repos).
Proof.
  split; [apply normalizeUrl_forms|].
  split; [intros p; split; [apply normalizeUrl_slash | apply normalizeUrl_git]|].
  split; [apply buildComponentUrlToBranchMap_lookup|].
  intros items repos. rewrite matchRepositories_names.
  f_equal. apply list_filter_iff. intros r.
  apply buildComponentUrlToBranchMap_is_Some.
Qed.

(** C4, as stated, fails: when the components cannot be listed, [Reconcile]
    hands the error to its caller. *)
Lemma C4_counterexample :
  Reconcile (exampleEnv (inl exampleSecretData) (inr exampleError) (λ _ _, None)) []
  = Some (Result_zero, Some exampleError,
          [Call_Client_Get "build-service" "pipelines-as-code-secret";
           Call_GetInstallations 42 "KEY";
           Call_Client_List;
           Call_Log_Error exampleError "failed to list Components"]).
Proof. by vm_compute. Qed.

(** C4, amended: once the GitHub App is found configured and its identifier
    is read, a failure of the directory call ends the reconciliation with
    that error handed to the caller, and so does a failure to list the
    components, which is logged as well; in both cases nothing is created
    and no later reconciliation is asked for. *)
Theorem C4_read_failures_are_returned (env : Env) (tr : Trace)
    (data : gmap string string) (githubAppId : Z) :
  pacSecretData env tr = Some data →
  IsPaCApplicationConfigured env "github" data = true →
  strconv.ParseInt (default "" (data !! PipelinesAsCode_githubAppIdKey env))
  = (githubAppId, None) →
  let privateKey := default "" (data !! PipelinesAsCode_githubPrivateKey env) in
  let tr1 := tr ++ [Call_Client_Get (buildServiceNamespaceName env)
                      (PipelinesAsCodeSecretName env)] in
  let tr2 := tr1 ++ [Call_GetInstallations githubAppId privateKey] in
  (∀ err,
     github_GetInstallations env tr1 githubAppId privateKey = inr err →
     Reconcile env tr = Some (Result_zero, Some err, tr2))
  ∧ (∀ insts slug err,
       github_GetInstallations env tr1 githubAppId privateKey = inl (insts, slug) →
       client_List env tr2 = inr err →
       Reconcile env tr
       = Some (Result_zero, Some err,
               tr2 ++ [Call_Client_List; Call_Log_Error err "failed to list Components"])).
Proof.
  intros Hdata HisApp Hparse privateKey tr1 tr2. split.
  - intros err. by apply Reconcile_directory_failure.
  - intros insts slug err Hinst Hlist.
    rewrite (Reconcile_list_failure env tr data githubAppId Hdata HisApp Hparse
               insts slug err Hinst Hlist).
    by rewrite <- app_assoc.
Qed.

Lemma C4_witness :
  let env := exampleEnv (inl exampleSecretData) (inr exampleError) (λ _ _, None) in
  ∃ tr', Reconcile env [] = Some (Result_zero, Some exampleError, tr').
Proof.
  intros env.
  destruct (C4_read_failures_are_returned env [] exampleSecretData 42) as [_ Hlist].
  - reflexivity.
  - reflexivity.
  - reflexivity.
  - eexists. apply (Hlist exampleInstallations "slug" exampleError); reflexivity.
Defined.



(** C6: the generated document consists of a text that does not depend on
    the repositories, in which the field [repositories] holds the JSON
    array with one entry per repository of the list, in the order of the
    list; the list stored for an installation by the matcher is what the
    matcher kept of its repositories, in order, and the document stored
    under [<id>.js] is the one generated from the list of the (last)
    installation with this identifier.  When the names and branches are
    made of characters JSON copies unescaped, two lists with the same
    document are the same list.  A repository matched with
    the branch [main] has the entry with [baseBranches: ["main"]], one
    matched with an empty branch has an entry without [baseBranches]. *)
Theorem C6_config_repositories (getenv : string -> string) (slug : string)
    (m : gmap string string) :
  (∃ pre post, ∀ repos,
     generateConfigJS getenv slug repos
     = pre +:+ "repositories: " +:+ marshalRepositories repos +:+ "," +:+ post)
  ∧ (∀ repos,
       marshalRepositories repos
       = "[" +:+ strings.Join (marshalRenovateRepository <$> repos) "," +:+ "]")
  ∧ (∀ repos,
       matchRepositories m repos
       = omap (λ r, (λ branch,
                       {| Repository := GetFullName r;
                          BaseBranches := if decide (branch = "") then [] else [branch] |})
                    <$> m !! GetHTMLURL r) repos)
  ∧ (∀ name branch,
       marshalRenovateRepository {| Repository := name; BaseBranches := [branch] |}
       = "{" +:+ dquote +:+ "repository" +:+ dquote +:+ ":" +:+ json.encodeString name
         +:+ "," +:+ dquote +:+ "baseBranches" +:+ dquote +:+ ":["
         +:+ json.encodeString branch +:+ "]}")
  ∧ (∀ name,
       marshalRenovateRepository {| Repository := name; BaseBranches := [] |}
       = "{" +:+ dquote +:+ "repository" +:+ dquote +:+ ":" +:+ json.encodeString name
         +:+ "}")
  ∧ json.encodeString "main" = dquote +:+ "main" +:+ dquote
  ∧ (∀ repos repos',
       Forall plainRepository repos → Forall plainRepository repos' →
       generateConfigJS getenv slug repos = generateConfigJS getenv slug repos' →
       repos = repos')
  ∧ (∀ batch key,
       configmapsOf getenv slug batch !! key
       = last ((λ x, generateConfigJS getenv slug (repositories x))
                 <$> filter (λ x, fmt.Sprint (id x) +:+ ".js" = key) batch))
  ∧ marshalRepositories
      (matchRepositories {[ "https://github.com/o/A" := "main"; "https://github.com/o/C" := "" ]}
         [exampleRepository "o/A"; exampleRepository "o/B"; exampleRepository "o/C"])
    = "[{" +:+ dquote +:+ "repository" +:+ dquote +:+ ":" +:+ dquote +:+ "o/A" +:+ dquote
      +:+ "," +:+ dquote +:+ "baseBranches" +:+ dquote +:+ ":[" +:+ dquote +:+ "main"
      +:+ dquote +:+ "]},{" +:+ dquote +:+ "repository" +:+ dquote +:+ ":" +:+ dquote
      +:+ "o/C" +:+ dquote +:+ "}]".
Proof.
  split; [apply generateConfigJS_shape|].
  split; [reflexivity|].
  split; [apply matchRepositories_omap|].
  split.
  { intros name branch. unfold marshalRenovateRepository, json.encodeArray.
    cbn [BaseBranches Repository length Nat.eqb fmap list_fmap strings.Join].
    by rewrite !string_app_assoc. }
  split.
  { intros name. unfold marshalRenovateRepository.
    cbn [BaseBranches Repository length Nat.eqb]. reflexivity. }
  split; [by vm_compute|].
  split; [apply generateConfigJS_inj|].
  split; [apply configmapsOf_lookup|].
  by vm_compute.
Qed.

(** C7: once the components are listed, [Reconcile] runs every batch in
    turn, whatever the cluster answers to the creations: the creation of
    one secret is asked for each batch, in order; a batch whose job could
    not be created leaves a log entry with the error and the next batch is
    run; and the result asks for the next reconciliation after ten hours,
    without an error. *)
Theorem C7_batches_independent_and_requeue (env : Env) (tr : Trace)
    (data : gmap string string) (githubAppId : Z)
    (insts : list ApplicationInstallation) (slug : string) (items : list Component) :
  pacSecretData env tr = Some data →
  IsPaCApplicationConfigured env "github" data = true →
  strconv.ParseInt (default "" (data !! PipelinesAsCode_githubAppIdKey env))
  = (githubAppId, None) →
  let privateKey := default "" (data !! PipelinesAsCode_githubPrivateKey env) in
  let tr1 := tr ++ [Call_Client_Get (buildServiceNamespaceName env)
                      (PipelinesAsCodeSecretName env)] in
  let tr2 := tr1 ++ [Call_GetInstallations githubAppId privateKey] in
  let tr3 := tr2 ++ [Call_Client_List] in
  github_GetInstallations env tr1 githubAppId privateKey = inl (insts, slug) →
  client_List env tr2 = inl items →
  let matched := matchInstallations (buildComponentUrlToBranchMap items) insts in
  ∃ bs evs,
    batches (installationPerJob (os_Getenv env)) matched = Some bs
    ∧ foldBatches (runBatch env slug) bs tr3 = Some (tr3 ++ evs)
    ∧ Reconcile env tr
      = Some ({| Requeue := false; RequeueAfter := 10 * 3600 * 1000000000 |}, None,
              tr3 ++ evs)
    ∧ secretsCreated evs = secretTokensOf (os_Getenv env) slug <$> bs
    ∧ (∀ batch tr0 e tr0',
         CreateRenovaterJob env batch slug tr0 = Some (Some e, tr0') →
         runBatch env slug batch tr0
         = Some (tr0' ++ [Call_Log_Error e "failed to create a job"])).
Proof.
  intros Hdata HisApp Hparse privateKey tr1 tr2 tr3 Hinst Hlist matched.
  destruct (Reconcile_batches env tr data githubAppId Hdata HisApp Hparse
              insts slug items Hinst Hlist) as (bs & evs & Hbs & Hrun & Hrec & Hsec).
  exists bs, evs. repeat split; try done.
  intros batch tr0 e tr0' Hcreate. unfold runBatch.
  by rewrite (createJobOrLog_logs env slug batch tr0 e tr0' Hcreate).
Qed.

Lemma C7_witness :
  let env := exampleEnv (inl exampleSecretData) (inl exampleComponents) refuseFirstSecret in
  ∃ tr', Reconcile env [] = Some ({| Requeue := false; RequeueAfter := 36000000000000 |},
                                  None, tr')
         ∧ length (secretsCreated tr') = 2%nat
         ∧ Call_Log_Error exampleError "failed to create a job" ∈ tr'.
Proof.
  intros env.
  destruct (C7_batches_independent_and_requeue env [] exampleSecretData 42
              exampleInstallations "slug" exampleComponents)
    as (bs & evs & Hbs & Hrun & Hrec & Hsec & _).
  - reflexivity.
  - reflexivity.
  - reflexivity.
  - reflexivity.
  - reflexivity.
  - eexists. split; [exact Hrec|].
    vm_compute in Hbs. injection Hbs as <-.
    vm_compute in Hrun. injection Hrun as <-.
    split; [reflexivity|]. vm_compute. do 4 right. left.
Defined.

(** C8: when the check of the secret says that the GitHub App is not
    configured, on the data read or on no data when the secret does not
    exist, [Reconcile] returns no error and asks for nothing, and all it
    did is read the secret and write one line of log: no directory call,
    nothing created. *)
Theorem C8_not_configured_noop (env : Env) (tr : Trace) (data : gmap string string) :
  pacSecretData env tr = Some data →
  IsPaCApplicationConfigured env "github" data = false →
  ∃ evs,
    Reconcile env tr = Some (Result_zero, None, tr ++ evs)
    ∧ evs = [Call_Client_Get (buildServiceNamespaceName env) (PipelinesAsCodeSecretName env);
             Call_Log_Info "GitHub App is not set"]
    ∧ Forall (λ e, isDirectoryCall e = false ∧ isCreate e = false) evs.
Proof.
  intros Hdata HisApp. eexists. split; [by apply (Reconcile_not_configured env tr data)|].
  split; [reflexivity|]. by repeat constructor.
Qed.

Lemma C8_witness :
  let env := exampleEnv (inr (APIError true "not found")) (inl exampleComponents)
               (λ _ _, None) in
  Reconcile env []
  = Some (Result_zero, None,
          [Call_Client_Get "build-service" "pipelines-as-code-secret";
           Call_Log_Info "GitHub App is not set"]).
Proof.
  intros env.
  destruct (C8_not_configured_noop env [] ∅) as (evs & Hrec & -> & _).
  - reflexivity.
  - reflexivity.
  - exact Hrec.
Defined.

(** C9: the values [0], [abc] and [100] of the variable give the default
    of 20 and [7] gives 7; a value that is not one or two digits gives the
    default, a value of one or two digits gives its number, or the default
    when that number is zero; so the limit is between 1 and 99. *)
Theorem C9_installations_per_job_validation :
  installationPerJob (envWith InstallationsPerJobEnvName "0") = 20
  ∧ installationPerJob (envWith InstallationsPerJobEnvName "abc") = 20
  ∧ installationPerJob (envWith InstallationsPerJobEnvName "100") = 20
  ∧ installationPerJob (envWith InstallationsPerJobEnvName "7") = 7
  ∧ (∀ getenv, regexp.MatchString_1_2_digits (getenv InstallationsPerJobEnvName) = false
               → installationPerJob getenv = 20)
  ∧ (∀ getenv a, getenv InstallationsPerJobEnvName = String a "" → isDigit a = true
               → installationPerJob getenv = if digit a =? 0 then 20 else digit a)
  ∧ (∀ getenv a b, getenv InstallationsPerJobEnvName = String a (String b "")
               → isDigit a = true → isDigit b = true
               → installationPerJob getenv
                 = if digit a * 10 + digit b =? 0 then 20 else digit a * 10 + digit b)
  ∧ (∀ getenv, 0 < installationPerJob getenv <= 99).
Proof.
  split; [by vm_compute|]. split; [by vm_compute|].
  split; [by vm_compute|]. split; [by vm_compute|].
  split; [apply installationPerJob_default|].
  split; [apply installationPerJob_1_digit|].
  split; [apply installationPerJob_2_digits|].
  apply installationPerJob_range.
Qed.

(** C10: two batches that agree on the identifiers and the repositories of
    their installations, whatever the tokens, give the same config-map data
    and the same commands, hence the same config map and the same job for a
    given name; and every config map and every job [CreateRenovaterJob] asks
    for is built from these alone.  The tokens go into the secret only. *)
Theorem C10_config_independent_of_tokens (env : Env) (slug : string)
    (b1 b2 : list installationStruct) :
  (λ x, (id x, repositories x)) <$> b1 = (λ x, (id x, repositories x)) <$> b2 →
  let getenv := os_Getenv env in
  let ns := buildServiceNamespaceName env in
  configmapsOf getenv slug b1 = configmapsOf getenv slug b2
  ∧ renovateCmdsOf getenv slug b1 = renovateCmdsOf getenv slug b2
  ∧ (∀ name,
       newConfigMap ns name (configmapsOf getenv slug b1)
       = newConfigMap ns name (configmapsOf getenv slug b2)
       ∧ newJob getenv ns name (renovateCmdsOf getenv slug b1)
         = newJob getenv ns name (renovateCmdsOf getenv slug b2))
  ∧ (∀ tr res tr',
       CreateRenovaterJob env b1 slug tr = Some (res, tr') →
       ∀ obj, Call_Client_Create obj ∈ drop (length tr) tr' →
         match obj with
         | OSecret secret =>
             secret = newSecret ns (jobName env tr) (secretTokensOf getenv slug b1)
         | OConfigMap configMap =>
             configMap = newConfigMap ns (jobName env tr) (configmapsOf getenv slug b2)
         | OJob job =>
             job = newJob getenv ns (jobName env tr) (renovateCmdsOf getenv slug b2)
         end).
Proof.
  intros Hsame getenv ns.
  assert (configmapsOf getenv slug b1 = configmapsOf getenv slug b2) as Hcm.
  { by rewrite !configmapsOf_from, Hsame. }
  assert (renovateCmdsOf getenv slug b1 = renovateCmdsOf getenv slug b2) as Hcmds.
  { rewrite !renovateCmdsOf_ids. f_equal.
    apply (f_equal (fmap fst)) in Hsame.
    by rewrite <- !list_fmap_compose in Hsame. }
  split; [done|]. split; [done|]. split.
  { intros name. by rewrite Hcm, Hcmds. }
  intros tr res tr' Hrun obj Hin.
  destruct (decide (b1 = [])) as [->|Hne].
  { rewrite CreateRenovaterJob_nil in Hrun. injection Hrun as _ <-.
    rewrite drop_all in Hin. by apply elem_of_nil in Hin. }
  destruct (CreateRenovaterJob_first_call env b1 slug tr Hne)
    as (res0 & evs & Hrun0 & Hsec & Hjob & Hconfig & _).
  rewrite Hrun0 in Hrun. injection Hrun as _ <-.
  rewrite drop_app_length in Hin.
  apply elem_of_cons in Hin as [Heq|Hin].
  - by injection Heq as ->.
  - destruct obj as [secret|configMap|job].
    + exfalso.
      assert (Secret_StringData secret ∈ secretsCreated evs) as Hs.
      { unfold secretsCreated. apply list_elem_of_omap.
        exists (Call_Client_Create (OSecret secret)). by split. }
      rewrite Hsec in Hs. by apply elem_of_nil in Hs.
    + rewrite <- Hcm. by apply Hconfig.
    + rewrite <- Hcmds, renovateCmdsOf_map. by apply Hjob.
Qed.

Lemma C10_witness :
  let env := exampleEnv (inl exampleSecretData) (inl exampleComponents) (λ _ _, None) in
  configmapsOf (os_Getenv env) "slug" exampleBatch
  = configmapsOf (os_Getenv env) "slug" exampleBatchOtherTokens
  ∧ secretTokensOf (os_Getenv env) "slug" exampleBatch
    ≠ secretTokensOf (os_Getenv env) "slug" exampleBatchOtherTokens.
Proof.
  intros env. split.
  - destruct (C10_config_independent_of_tokens env "slug" exampleBatch
                exampleBatchOtherTokens) as [H _].
    + reflexivity.
    + exact H.
  - intros H. apply (f_equal (λ m : gmap string string, m !! "1")) in H.
    vm_compute in H. discriminate H.
Defined.

(** * Further properties *)

(** ** [ParseInt] reads back what [Sprint] writes *)

Lemma pretty_N_char_digit d :
  (d < 10)%N → isDigit (pretty_N_char d) = true ∧ digit (pretty_N_char d) = Z.of_N d.
Proof.
  intros Hd.
  assert (d ∈ [0; 1; 2; 3; 4; 5; 6; 7; 8; 9]%N) as Hin.
  { destruct d as [|p]; [set_solver|].
    do 9 (destruct p as [p|p|]; try lia; try set_solver). }
  repeat (apply elem_of_cons in Hin as [->|Hin]; [by vm_compute|]).
  by apply elem_of_nil in Hin.
Qed.

Lemma ParseUint_loop_digit c rest n :
  isDigit c = true → 0 <= n → n * 10 + digit c <= strconv.maxUint64 →
  strconv.ParseUint_loop (String c rest) n
  = strconv.ParseUint_loop rest (n * 10 + digit c).
Proof.
  intros Hc Hn Hmax. cbn [strconv.ParseUint_loop]. rewrite Hc. fold (digit c).
  pose proof (isDigit_range c Hc) as Hd.
  unfold strconv.maxUint64 in *.
  assert (2 ^ 64 = 18446744073709551616) as E by reflexivity.
  destruct (Z.leb_spec ((2 ^ 64 - 1) / 10 + 1) n) as [Hbig|_].
  { exfalso. rewrite E in *. change ((18446744073709551616 - 1) / 10) with 1844674407370955161 in Hbig. lia. }
  cbv zeta. rewrite !Z.mod_small by (rewrite ?Z.mod_small; lia).
  destruct (Z.ltb_spec (n * 10 + digit c) (n * 10)); [lia|].
  destruct (Z.ltb_spec (2 ^ 64 - 1) (n * 10 + digit c)); [lia|]. done.
Qed.

Lemma ParseUint_loop_pretty (x : N) :
  Z.of_N x <= strconv.maxUint64 →
  ∀ s, strconv.ParseUint_loop (pretty_N_go x s) 0 = strconv.ParseUint_loop s (Z.of_N x).
Proof.
  assert (strconv.maxUint64 = 18446744073709551615) as Emax by reflexivity.
  rewrite Emax. induction (N.lt_wf_0 x) as [x _ IH]. intros Hx s.
  destruct (decide (0 < x)%N) as [Hpos|Hzero].
  - rewrite pretty_N_go_step by done.
    assert (x `mod` 10 < 10)%N as Hmod by (apply N.mod_lt; lia).
    destruct (pretty_N_char_digit _ Hmod) as [Hd Hv].
    assert (Z.of_N x = Z.of_N (x `div` 10) * 10 + Z.of_N (x `mod` 10)) as Hx10.
    { rewrite (N.div_mod x 10) at 1 by lia. lia. }
    rewrite IH.
    + rewrite ParseUint_loop_digit; [|done|lia|rewrite Hv, Emax; lia].
      by rewrite Hv, <- Hx10.
    + apply N.div_lt; lia.
    + pose proof (N2Z.is_nonneg (x `mod` 10)) as Hnn.
      revert Hnn Hx Hx10. clear.
      generalize (Z.of_N (x `div` 10)) (Z.of_N (x `mod` 10)) (Z.of_N x). lia.
  - assert (x = 0%N) as -> by lia. by rewrite pretty_N_go_0.
Qed.

Lemma pretty_N_go_head (x : N) :
  (0 < x)%N → ∀ s, ∃ c t, pretty_N_go x s = String c t ∧ isDigit c = true.
Proof.
  induction (N.lt_wf_0 x) as [x _ IH]. intros Hpos s.
  rewrite pretty_N_go_step by done.
  assert (x `mod` 10 < 10)%N as Hmod by (apply N.mod_lt; lia).
  destruct (decide (0 < x `div` 10)%N) as [Hdiv|Hdiv].
  - apply IH; [apply N.div_lt; [done|reflexivity] | done].
  - destruct (N.eq_0_gt_0_cases (x `div` 10)) as [->|?]; [|done].
    rewrite pretty_N_go_0.
    eexists _, _. split; [reflexivity|]. by apply pretty_N_char_digit.
Qed.

Lemma ParseUint_pretty (x : N) :
  (0 < x)%N → Z.of_N x <= strconv.maxUint64 →
  strconv.ParseUint (pretty_N_go x "") = (Z.of_N x, None).
Proof.
  intros Hpos Hx. destruct (pretty_N_go_head x Hpos "") as (c & t & Heq & _).
  unfold strconv.ParseUint. rewrite Heq, <- Heq.
  by rewrite ParseUint_loop_pretty.
Qed.

Lemma ParseInt_Sprint n :
  - 2 ^ 63 <= n < 2 ^ 63 → strconv.ParseInt (fmt.Sprint n) = (n, None).
Proof.
  intros Hn. assert (2 ^ 63 = 9223372036854775808) as E63 by reflexivity.
  assert (strconv.maxUint64 = 18446744073709551615) as Emax by reflexivity.
  unfold fmt.Sprint, pretty, pretty_Z.
  destruct n as [|p|p].
  - reflexivity.
  - unfold pretty, pretty_positive, pretty, pretty_N.
    rewrite decide_False by done.
    destruct (pretty_N_go_head (N.pos p) ltac:(lia) "") as (c & t & Heq & Hc).
    destruct (isDigit_not_sign c Hc) as [Hm Hp].
    rewrite Heq. unfold strconv.ParseInt. rewrite Hm, Hp. cbn [orb negb andb].
    rewrite <- Heq, ParseUint_pretty by lia.
    change (Z.of_N (N.pos p)) with (Z.pos p).
    destruct (Z.leb_spec (2 ^ 63) (Z.pos p)); [lia|]. done.
  - unfold pretty, pretty_positive, pretty, pretty_N.
    rewrite decide_False by done.
    change ("-" +:+ pretty_N_go (N.pos p) "") with (String "-" (pretty_N_go (N.pos p) "")).
    unfold strconv.ParseInt. cbn [bool_decide decide_rel orb negb andb].
    rewrite (bool_decide_eq_true_2 ("-"%char = "-"%char)) by done.
    rewrite orb_true_r. rewrite ParseUint_pretty by lia.
    change (Z.of_N (N.pos p)) with (Z.pos p). cbn [negb andb].
    destruct (Z.ltb_spec (2 ^ 63) (Z.pos p)); [lia|]. done.
Qed.

(** ** The runs of [Reconcile] that end early *)

Section reconcile_more.
Context (env : Env).

Lemma Reconcile_parse_failure tr data v numErr :
  pacSecretData env tr = Some data →
  IsPaCApplicationConfigured env "github" data = true →
  strconv.ParseInt (default "" (data !! PipelinesAsCode_githubAppIdKey env))
  = (v, Some numErr) →
  Reconcile env tr
  = Some (Result_zero, None,
          tr ++ [Call_Client_Get (buildServiceNamespaceName env)
                   (PipelinesAsCodeSecretName env);
                 Call_Log_Error
                   (NumError "ParseInt"
                      (default "" (data !! PipelinesAsCode_githubAppIdKey env)) numErr)
                   "failed to convert %s to int: %w"]).
Proof.
  intros Hdata HisApp Hparse. rewrite Reconcile_unfold, Hdata.
  unfold reconcileWithSecret. rewrite HisApp, Hparse. cbn [negb].
  unfold bind, Log_Error, call, ret. by rewrite <- app_assoc.
Qed.

Lemma Reconcile_read_failure tr err :
  client_Get env tr (buildServiceNamespaceName env) (PipelinesAsCodeSecretName env)
  = inr err →
  IsNotFound err = false →
  Reconcile env tr
  = Some (Result_zero, None,
          tr ++ [Call_Client_Get (buildServiceNamespaceName env)
                   (PipelinesAsCodeSecretName env);
                 Call_EventRecorder_Event "Warning" "ErrorReadingPaCSecret" err;
                 Call_Log_Error err
                   "failed to get Pipelines as Code secret in %s namespace: %w"]).
Proof.
  intros Hget Hnf. rewrite Reconcile_unfold. unfold pacSecretData.
  by rewrite Hget, Hnf.
Qed.

Lemma pacSecretData_None tr :
  pacSecretData env tr = None →
  ∃ err, client_Get env tr (buildServiceNamespaceName env) (PipelinesAsCodeSecretName env)
         = inr err ∧ IsNotFound err = false.
Proof.
  unfold pacSecretData. destruct (client_Get env tr _ _) as [data|err]; [done|].
  destruct (IsNotFound err) eqn:E; [done|]. eauto.
Qed.

(** Every run of [Reconcile], sorted by how far it gets. *)
Lemma Reconcile_cases tr :
  let get := Call_Client_Get (buildServiceNamespaceName env) (PipelinesAsCodeSecretName env) in
  ∃ res err evs,
    Reconcile env tr = Some (res, err, tr ++ get :: evs)
    ∧ ((res = Result_zero ∧ Forall (λ e, isCreate e = false) evs)
       ∨ (res = {| Requeue := false; RequeueAfter := NextReconcile |} ∧ err = None
          ∧ ∃ appId key, [Call_GetInstallations appId key; Call_Client_List] `prefix_of` evs))
    ∧ (∀ e, err = Some e →
         ∃ appId key evs',
           evs = Call_GetInstallations appId key :: evs'
           ∧ (evs' = [] ∨ evs' = [Call_Client_List;
                                  Call_Log_Error e "failed to list Components"])).
Proof.
  intros get.
  destruct (pacSecretData env tr) as [data|] eqn:Hdata.
  2:{ destruct (pacSecretData_None tr Hdata) as (err & Hget & Hnf).
      rewrite (Reconcile_read_failure tr err Hget Hnf).
      eexists _, _, _. split; [reflexivity|]. split; [|done].
      left. split; [done|]. by repeat constructor. }
  destruct (IsPaCApplicationConfigured env "github" data) eqn:HisApp.
  2:{ rewrite (Reconcile_not_configured env tr data Hdata HisApp).
      eexists _, _, _. split; [reflexivity|]. split; [|done].
      left. split; [done|]. by repeat constructor. }
  destruct (strconv.ParseInt (default "" (data !! PipelinesAsCode_githubAppIdKey env)))
    as [appId [numErr|]] eqn:Hparse.
  { rewrite (Reconcile_parse_failure tr data appId numErr Hdata HisApp Hparse).
    eexists _, _, _. split; [reflexivity|]. split; [|done].
    left. split; [done|]. by repeat constructor. }
  set (key := default "" (data !! PipelinesAsCode_githubPrivateKey env)).
  destruct (github_GetInstallations env (tr ++ [get]) appId key)
    as [[insts slug]|err] eqn:Hinst.
  2:{ rewrite (Reconcile_directory_failure env tr data appId Hdata HisApp Hparse err Hinst).
      fold key get. rewrite <- app_assoc.
      eexists _, _, _. split; [reflexivity|]. split.
      - left. split; [done|]. by repeat constructor.
      - intros e [= <-]. eexists _, _, _. split; [reflexivity|]. by left. }
  destruct (client_List env ((tr ++ [get]) ++ [Call_GetInstallations appId key]))
    as [items|err] eqn:Hlist.
  2:{ rewrite (Reconcile_list_failure env tr data appId Hdata HisApp Hparse
                 insts slug err Hinst Hlist).
      fold key get. rewrite <- !app_assoc.
      eexists _, _, _. split; [reflexivity|]. split.
      - left. split; [done|]. by repeat constructor.
      - intros e [= <-]. eexists _, _, _. split; [reflexivity|]. by right. }
  destruct (Reconcile_batches env tr data appId Hdata HisApp Hparse insts slug items
              Hinst Hlist) as (bs & evs & _ & _ & Hrec & _).
  rewrite Hrec. fold key get. rewrite <- !app_assoc.
  eexists _, _, _. split; [reflexivity|]. split; [|done].
  right. split; [done|]. split; [done|]. exists appId, key. by exists evs.
Qed.

End reconcile_more.

(** ** Counting batches; the matcher element by element *)

Lemma wellBatched_tail {A} n (b : list A) bs : wellBatched n (b :: bs) → wellBatched n bs.
Proof.
  intros [Hall Hfull]. apply Forall_cons in Hall as [_ Hall]. split; [done|].
  intros k b' Hk Hlast. apply (Hfull (S k) b' Hk). simpl. lia.
Qed.

Lemma wellBatched_bounds {A} n (bs : list (list A)) :
  0 < n → wellBatched n bs →
  Z.of_nat (length bs) * n - n < Z.of_nat (length (concat bs)) <= Z.of_nat (length bs) * n.
Proof.
  intros Hn. induction bs as [|b bs IH]; intros Hwb; [simpl; lia|].
  pose proof (wellBatched_tail n b bs Hwb) as Htail. specialize (IH Htail).
  destruct Hwb as [Hall Hfull]. apply Forall_cons in Hall as [[Hpos Hle] _].
  cbn [concat]. rewrite length_app. cbn [length].
  destruct bs as [|b' bs].
  - simpl. lia.
  - assert (Z.of_nat (length b) = n) as Hb by (apply (Hfull 0%nat b); [done|simpl; lia]).
    revert IH. generalize (length (concat (b' :: bs))) (length (b' :: bs)). lia.
Qed.

Lemma wellBatched_count {A} n (bs : list (list A)) :
  0 < n → wellBatched n bs →
  Z.of_nat (length bs) = (Z.of_nat (length (concat bs)) + n - 1) / n.
Proof.
  intros Hn Hwb. pose proof (wellBatched_bounds n bs Hn Hwb) as Hb.
  apply (Z.div_unique_pos _ _ _
           (Z.of_nat (length (concat bs)) + n - 1 - n * Z.of_nat (length bs))); lia.
Qed.

Lemma matchRepositories_elem m repos r :
  r ∈ matchRepositories m repos →
  ∃ gr branch, gr ∈ repos ∧ m !! GetHTMLURL gr = Some branch
               ∧ Repository r = GetFullName gr
               ∧ BaseBranches r = (if decide (branch = "") then [] else [branch]).
Proof.
  rewrite matchRepositories_omap. intros Hin.
  apply list_elem_of_omap in Hin as (gr & Hgr & Hr). unfold toRenovate in Hr.
  destruct (m !! GetHTMLURL gr) as [branch|] eqn:E; [|done].
  injection Hr as <-. by exists gr, branch.
Qed.

Lemma matchInstallations_elem m insts x :
  x ∈ matchInstallations m insts →
  ∃ inst, inst ∈ insts ∧ id x = ID inst ∧ token x = Token inst
          ∧ repositories x = matchRepositories m (Repositories inst).
Proof.
  rewrite matchInstallations_filter. intros Hin.
  apply list_elem_of_fmap in Hin as (inst & -> & Hin).
  apply list_elem_of_filter in Hin as [_ Hin]. by exists inst.
Qed.

Lemma matchRepositories_length m repos :
  (length (matchRepositories m repos) <= length repos)%nat.
Proof.
  rewrite matchRepositories_omap. induction repos as [|r repos IH]; [done|].
  cbn [omap list_omap]. destruct (toRenovate m r); simpl; lia.
Qed.

Lemma matchInstallations_untracked m insts :
  Forall (λ inst, Forall (λ r, m !! GetHTMLURL r = None) (Repositories inst)) insts →
  matchInstallations m insts = [].
Proof.
  intros Hall. rewrite matchInstallations_filter.
  induction insts as [|inst insts IH]; [done|].
  apply Forall_cons in Hall as [Hinst Hall].
  rewrite filter_cons, decide_False; [by apply IH|].
  intros Hex. apply Exists_exists in Hex as (r & Hr & Hsome).
  rewrite Forall_forall in Hinst. rewrite (Hinst r Hr) in Hsome. by destruct Hsome.
Qed.

(** ** [CreateRenovaterJob] call by call *)

Lemma newJob_name getenv ns name cmds :
  meta_Name (Job_ObjectMeta (newJob getenv ns name cmds)) = name.
Proof. reflexivity. Qed.

Section create_more.
Context (env : Env) (slug : string) (batch : list installationStruct) (tr : Trace).
Context (Hne : batch ≠ []).

Let ns := buildServiceNamespaceName env.
Let name := jobName env tr.
Let secret := newSecret ns name (secretTokensOf (os_Getenv env) slug batch).
Let configMap := newConfigMap ns name (configmapsOf (os_Getenv env) slug batch).
Let job := newJob (os_Getenv env) ns name (renovateCmd <$> batch).
Let createSecret := Call_Client_Create (OSecret secret).
Let createConfigMap := Call_Client_Create (OConfigMap configMap).
Let createJob := Call_Client_Create (OJob job).
Let logInfo := Call_Log_Info (fmt.Sprintf "Job %s triggered" [fmt.Str name]).

Lemma CreateRenovaterJob_run :
  CreateRenovaterJob env batch slug tr
  = Some
      match client_Create env tr (OSecret secret) with
      | Some e => (Some e, tr ++ [createSecret])
      | None =>
      match client_Create env (tr ++ [createSecret]) (OConfigMap configMap) with
      | Some e => (Some e, tr ++ [createSecret; createConfigMap])
      | None =>
      match client_Create env (tr ++ [createSecret; createConfigMap]) (OJob job) with
      | Some e => (Some e, tr ++ [createSecret; createConfigMap; createJob])
      | None =>
      let tr4 := tr ++ [createSecret; createConfigMap; createJob; logInfo] in
      match controllerutil_SetOwnerReference env job (Secret_ObjectMeta secret) with
      | inr e => (Some e, tr4)
      | inl m1 =>
      let updateSecret := Call_Client_Update (setOwner m1 (OSecret secret)) in
      match client_Update env tr4 (setOwner m1 (OSecret secret)) with
      | Some e => (Some e, tr4 ++ [updateSecret])
      | None =>
      match controllerutil_SetOwnerReference env job (ConfigMap_ObjectMeta configMap) with
      | inr e => (Some e, tr4 ++ [updateSecret])
      | inl m2 =>
          (client_Update env (tr4 ++ [updateSecret]) (setOwner m2 (OConfigMap configMap)),
           tr4 ++ [updateSecret; Call_Client_Update (setOwner m2 (OConfigMap configMap))])
      end end end end end end.
Proof.
  subst createSecret createConfigMap createJob logInfo job configMap secret name ns.
  unfold CreateRenovaterJob.
  destruct batch as [|x batch']; [done|]. cbn [length Nat.eqb].
  pose proof (renovateCmdsOf_map (os_Getenv env) slug (x :: batch')) as Hcmds.
  unfold secretTokensOf, configmapsOf, renovateCmdsOf in *.
  unfold bind at 1. unfold peek at 1. unfold bind at 1. unfold peek at 1.
  fold (jobName env tr).
  destruct (collectInstallations (os_Getenv env) slug (x :: batch'))
    as [[secretTokens configmaps] renovateCmds].
  cbn [fst snd] in *. subst renovateCmds. cbn [fmap list_fmap length Nat.eqb].
  unfold bind, Client_Create, Log_Info, ownAndUpdate, Client_Update, call, ret.
  cbn [objectMeta].
  repeat (repeat (rewrite <- app_assoc; cbn [app]); rewrite ?newJob_name;
          match goal with
          | |- context [match ?o with Some _ => _ | None => _ end] =>
              lazymatch o with
              | client_Create _ _ _ => destruct o
              | client_Update _ _ _ => destruct o
              end
          | |- context [match ?o with inl _ => _ | inr _ => _ end] =>
              lazymatch o with
              | controllerutil_SetOwnerReference _ _ _ => destruct o
              end
          end);
  repeat (rewrite <- app_assoc; cbn [app]); rewrite ?newJob_name; reflexivity.
Qed.

Lemma CreateRenovaterJob_prefix :
  ∃ res evs m1 m2,
    CreateRenovaterJob env batch slug tr = Some (res, tr ++ evs)
    ∧ evs ≠ []
    ∧ evs `prefix_of` sixCalls env slug batch tr m1 m2
    ∧ (res = None →
       evs = sixCalls env slug batch tr m1 m2
       ∧ controllerutil_SetOwnerReference env job (Secret_ObjectMeta secret) = inl m1
       ∧ controllerutil_SetOwnerReference env job (ConfigMap_ObjectMeta configMap) = inl m2).
Proof.
  rewrite CreateRenovaterJob_run. cbv zeta.
  pose (d1 := Secret_ObjectMeta secret). pose (d2 := ConfigMap_ObjectMeta configMap).
  destruct (client_Create env tr (OSecret secret)) as [e|].
  { eexists _, _, d1, d2. split; [reflexivity|]. split; [done|]. split; [by eexists|done]. }
  destruct (client_Create env (tr ++ [createSecret]) (OConfigMap configMap)) as [e|].
  { eexists _, _, d1, d2. split; [reflexivity|]. split; [done|]. split; [by eexists|done]. }
  destruct (client_Create env (tr ++ [createSecret; createConfigMap]) (OJob job)) as [e|].
  { eexists _, _, d1, d2. split; [reflexivity|]. split; [done|]. split; [by eexists|done]. }
  destruct (controllerutil_SetOwnerReference env job (Secret_ObjectMeta secret))
    as [m1|e].
  2:{ eexists _, _, d1, d2. split; [reflexivity|]. split; [done|]. split; [by eexists|done]. }
  rewrite <- !app_assoc. cbn [app].
  destruct (client_Update env _ (setOwner m1 (OSecret secret))) as [e|].
  { eexists _, _, m1, d2. split; [reflexivity|]. split; [done|]. split; [by eexists|done]. }
  destruct (controllerutil_SetOwnerReference env job (ConfigMap_ObjectMeta configMap))
    as [m2|e].
  2:{ eexists _, _, m1, d2. split; [reflexivity|]. split; [done|]. split; [by eexists|done]. }
  rewrite <- !app_assoc. cbn [app].
  eexists _, _, m1, m2. split; [reflexivity|]. split; [done|]. split; [by exists []|done].
Qed.

End create_more.

(** ** Keys of the secret and of the config map; the environment *)

Section collect_more.
Context (getenv : string -> string) (slug : string).

Lemma secretTokensOf_snoc l x :
  secretTokensOf getenv slug (l ++ [x])
  = <[fmt.Sprint (id x) := token x]> (secretTokensOf getenv slug l).
Proof. unfold secretTokensOf at 1. by rewrite collectInstallations_snoc. Qed.

Lemma configmapsOf_snoc l x :
  configmapsOf getenv slug (l ++ [x])
  = <[fmt.Sprint (id x) +:+ ".js" := generateConfigJS getenv slug (repositories x)]>
      (configmapsOf getenv slug l).
Proof. unfold configmapsOf at 1. by rewrite collectInstallations_snoc. Qed.

Lemma secretTokensOf_nil : secretTokensOf getenv slug [] = ∅.
Proof. reflexivity. Qed.

Lemma configmapsOf_nil : configmapsOf getenv slug [] = ∅.
Proof. reflexivity. Qed.

Lemma secretTokensOf_dom l :
  dom (secretTokensOf getenv slug l) = list_to_set ((λ x, fmt.Sprint (id x)) <$> l).
Proof.
  induction l as [|x l IH] using rev_ind; [by rewrite secretTokensOf_nil, dom_empty_L|].
  rewrite secretTokensOf_snoc, dom_insert_L, IH, fmap_app.
  cbn [fmap list_fmap]. by rewrite list_to_set_snoc_L, (comm_L (∪)).
Qed.

Lemma configmapsOf_dom l :
  dom (configmapsOf getenv slug l)
  = list_to_set ((λ x, fmt.Sprint (id x) +:+ ".js") <$> l).
Proof.
  induction l as [|x l IH] using rev_ind; [by rewrite configmapsOf_nil, dom_empty_L|].
  rewrite configmapsOf_snoc, dom_insert_L, IH, fmap_app.
  cbn [fmap list_fmap]. by rewrite list_to_set_snoc_L, (comm_L (∪)).
Qed.

Lemma secretTokensOf_size l : (size (secretTokensOf getenv slug l) <= length l)%nat.
Proof.
  induction l as [|x l IH] using rev_ind; [done|].
  rewrite secretTokensOf_snoc, length_app. simpl.
  destruct (secretTokensOf getenv slug l !! fmt.Sprint (id x)) eqn:E.
  - rewrite map_size_insert_Some by eauto. lia.
  - rewrite map_size_insert_None by done. lia.
Qed.

Lemma secretTokensOf_size_NoDup l :
  NoDup (id <$> l) → size (secretTokensOf getenv slug l) = length l.
Proof.
  induction l as [|x l IH] using rev_ind; intros Hnd; [done|].
  rewrite fmap_app in Hnd. apply NoDup_app in Hnd as (Hl & Hx & _).
  rewrite secretTokensOf_snoc, length_app, map_size_insert_None; [simpl; rewrite IH by done; lia|].
  rewrite secretTokensOf_lookup.
  rewrite (list_filter_iff _ (λ y, id y = id x)).
  - rewrite filter_id_absent; [done|]. intros Hin. apply (Hx _ Hin). simpl. by left.
  - intros y. split; [|by intros ->]. unfold fmt.Sprint. apply (inj pretty).
Qed.

Lemma secretTokensOf_present l x :
  x ∈ l → is_Some (secretTokensOf getenv slug l !! fmt.Sprint (id x)).
Proof.
  intros Hx. rewrite secretTokensOf_lookup. apply last_is_Some.
  intros Hnil. apply fmap_nil_inv in Hnil.
  assert (x ∈ filter (λ y, fmt.Sprint (id y) = fmt.Sprint (id x)) l) as Hin
    by (by apply list_elem_of_filter).
  rewrite Hnil in Hin. by apply elem_of_nil in Hin.
Qed.

Lemma configmapsOf_present l x :
  x ∈ l → is_Some (configmapsOf getenv slug l !! (fmt.Sprint (id x) +:+ ".js")).
Proof.
  intros Hx. rewrite configmapsOf_lookup. apply last_is_Some.
  intros Hnil. apply fmap_nil_inv in Hnil.
  assert (x ∈ filter (λ y, fmt.Sprint (id y) +:+ ".js" = fmt.Sprint (id x) +:+ ".js") l)
    as Hin by (by apply list_elem_of_filter).
  rewrite Hnil in Hin. by apply elem_of_nil in Hin.
Qed.

End collect_more.

Lemma generateConfigJS_effective getenv slug repos :
  generateConfigJS getenv slug repos
  = generateConfigJS
      (envWith RenovateMatchPatternEnvName
         (effective getenv RenovateMatchPatternEnvName DefaultRenovateMatchPattern))
      slug repos.
Proof.
  unfold generateConfigJS, effective, envWith. cbv zeta.
  rewrite (decide_True (P := RenovateMatchPatternEnvName = RenovateMatchPatternEnvName))
    by done.
  destruct (decide (getenv RenovateMatchPatternEnvName = "")) as [E|E].
  - by rewrite decide_False.
  - by rewrite decide_False.
Qed.

Lemma generateConfigJS_env g1 g2 slug repos :
  effective g1 RenovateMatchPatternEnvName DefaultRenovateMatchPattern
  = effective g2 RenovateMatchPatternEnvName DefaultRenovateMatchPattern →
  generateConfigJS g1 slug repos = generateConfigJS g2 slug repos.
Proof.
  intros H. rewrite (generateConfigJS_effective g1), (generateConfigJS_effective g2).
  by rewrite H.
Qed.

Lemma collectInstallations_env g1 g2 slug l :
  effective g1 RenovateMatchPatternEnvName DefaultRenovateMatchPattern
  = effective g2 RenovateMatchPatternEnvName DefaultRenovateMatchPattern →
  collectInstallations g1 slug l = collectInstallations g2 slug l.
Proof.
  intros H. induction l as [|x l IH] using rev_ind; [done|].
  rewrite !collectInstallations_snoc.
  unfold secretTokensOf, configmapsOf, renovateCmdsOf. rewrite IH.
  by rewrite (generateConfigJS_env g1 g2 slug _ H).
Qed.

Lemma newJob_env g1 g2 ns name cmds :
  effective g1 RenovateImageEnvName DefaultRenovateImageUrl
  = effective g2 RenovateImageEnvName DefaultRenovateImageUrl →
  newJob g1 ns name cmds = newJob g2 ns name cmds.
Proof. unfold newJob, effective. cbv zeta. by intros ->. Qed.

Section keys.
Context (getenv : string -> string) (slug : string).

Lemma secretTokensOf_is_Some l n :
  is_Some (secretTokensOf getenv slug l !! fmt.Sprint n) ↔ n ∈ id <$> l.
Proof.
  rewrite <- elem_of_dom, secretTokensOf_dom, elem_of_list_to_set, !list_elem_of_fmap.
  split.
  - intros (x & Hx & Hin). exists x. split; [|done].
    revert Hx. unfold fmt.Sprint. apply (inj pretty).
  - intros (x & -> & Hin). by exists x.
Qed.

Lemma configmapsOf_is_Some l n :
  is_Some (configmapsOf getenv slug l !! (fmt.Sprint n +:+ ".js")) ↔ n ∈ id <$> l.
Proof.
  rewrite <- elem_of_dom, configmapsOf_dom, elem_of_list_to_set, !list_elem_of_fmap.
  split.
  - intros (x & Hx & Hin). exists x. split; [|done].
    apply string_app_inj_r in Hx. revert Hx. unfold fmt.Sprint. apply (inj pretty).
  - intros (x & -> & Hin). by exists x.
Qed.

Lemma collected_sizes l :
  size (configmapsOf getenv slug l) = size (secretTokensOf getenv slug l)
  ∧ (size (secretTokensOf getenv slug l) <= length l)%nat
  ∧ (size (secretTokensOf getenv slug l) = length l → NoDup (id <$> l)).
Proof.
  induction l as [|x l (IHeq & IHle & IHnd)] using rev_ind.
  { split; [done|]. split; [done|]. intros _. constructor. }
  rewrite secretTokensOf_snoc, configmapsOf_snoc, length_app, fmap_app. cbn [length fmap list_fmap].
  destruct (decide (id x ∈ id <$> l)) as [Hin|Hout].
  - rewrite !map_size_insert_Some
      by (by apply secretTokensOf_is_Some || by apply configmapsOf_is_Some).
    split; [done|]. split; [lia|]. lia.
  - rewrite !map_size_insert_None
      by (apply eq_None_not_Some;
          by rewrite ?secretTokensOf_is_Some, ?configmapsOf_is_Some).
    split; [lia|]. split; [lia|]. intros Hsize.
    apply NoDup_app. split; [apply IHnd; lia|]. split; [|apply NoDup_singleton].
    intros n Hn ->%list_elem_of_singleton. done.
Qed.

End keys.

(** ** Characters of the marshalled repositories *)

Lemma allChars_app P s t : allChars P (s +:+ t) = allChars P s && allChars P t.
Proof.
  induction s as [|c s IH]; [done|].
  rewrite string_app_cons. cbn [allChars]. by rewrite IH, andb_assoc.
Qed.

Lemma inert_ascii b0 :
  allChars inert (if json.htmlSafe b0 then String b0 "" else json.escapeByte b0) = true.
Proof. destruct b0 as [[] [] [] [] [] [] [] []]; by vm_compute. Qed.

Lemma inert_high c : 128 <= utf8.byte c → inert c = true.
Proof.
  intros H. unfold inert.
  rewrite !andb_true_iff, !negb_true_iff, !bool_decide_eq_false, Z.leb_le.
  repeat split; try lia; intros ->; vm_compute in H; by apply H.
Qed.

Lemma not_ascii_high c : utf8.between 0 127 c = false → 128 <= utf8.byte c.
Proof.
  unfold utf8.between, utf8.byte. intros H.
  apply andb_false_iff in H as [H|H].
  - apply Z.leb_gt in H. lia.
  - apply Z.leb_gt in H. lia.
Qed.

Lemma between_high lo hi c : 128 <= lo → utf8.between lo hi c = true → 128 <= utf8.byte c.
Proof.
  unfold utf8.between. intros Hlo H. apply andb_true_iff in H as [H _].
  apply Z.leb_le in H. lia.
Qed.

Lemma DecodeSize_inv b0 rest n :
  utf8.between 0 127 b0 = false →
  utf8.DecodeSize (String b0 rest) = Some n →
  match n, rest with
  | 2%nat, String b1 _ => 128 <= utf8.byte b1
  | 3%nat, String b1 (String b2 _) => 128 <= utf8.byte b1 ∧ 128 <= utf8.byte b2
  | 4%nat, String b1 (String b2 (String b3 _)) =>
      128 <= utf8.byte b1 ∧ 128 <= utf8.byte b2 ∧ 128 <= utf8.byte b3
  | _, _ => True
  end.
Proof.
  intros H0 H. unfold utf8.DecodeSize in H. rewrite H0 in H.
  destruct (utf8.between 194 223 b0).
  { destruct rest as [|b1 r]; [done|].
    destruct (utf8.between 128 191 b1) eqn:E1; [|done]. injection H as <-.
    by apply (between_high 128 191). }
  destruct (utf8.between 224 239 b0).
  { cbv zeta in H.
    destruct rest as [|b1 [|b2 r]]; try done.
    - by destruct (utf8.between _ _ b1).
    - destruct (utf8.between _ _ b1) eqn:E1; [|done].
      destruct (utf8.between 128 191 b2) eqn:E2; [|done]. injection H as <-. split.
      + eapply between_high; [|exact E1]. destruct (utf8.byte b0 =? 224); lia.
      + by apply (between_high 128 191). }
  destruct (utf8.between 240 244 b0); [|done].
  cbv zeta in H.
  destruct rest as [|b1 [|b2 [|b3 r]]]; try done.
  - by destruct (utf8.between _ _ b1).
  - destruct (utf8.between _ _ b1); [|done]. by destruct (utf8.between 128 191 b2).
  - destruct (utf8.between _ _ b1) eqn:E1; [|done].
    destruct (utf8.between 128 191 b2) eqn:E2; [|done].
    destruct (utf8.between 128 191 b3) eqn:E3; [|done]. injection H as <-.
    split; [|split].
    + eapply between_high; [|exact E1]. destruct (utf8.byte b0 =? 240); lia.
    + by apply (between_high 128 191).
    + by apply (between_high 128 191).
Qed.

Lemma encodeStringBody_inert_le n s :
  (String.length s <= n)%nat → allChars inert (json.encodeStringBody s) = true.
Proof.
  revert s. induction n as [|n IH]; intros s Hlen.
  { destruct s; [done|simpl in Hlen; lia]. }
  destruct s as [|b0 rest]; [done|]. cbn [String.length] in Hlen.
  cbn [json.encodeStringBody].
  destruct (utf8.between 0 127 b0) eqn:H0.
  { rewrite allChars_app, inert_ascii, IH by lia. done. }
  pose proof (not_ascii_high b0 H0) as Hb0.
  destruct (utf8.DecodeSize (String b0 rest)) as [k|] eqn:Hsize.
  2:{ rewrite allChars_app, IH by lia. reflexivity. }
  pose proof (DecodeSize_inv b0 rest k H0 Hsize) as Hinv.
  destruct k as [|[|[|[|[|k]]]]]; try (rewrite allChars_app, IH by lia; reflexivity).
  - destruct rest as [|b1 r1]; [reflexivity|]. cbn [String.length] in Hlen.
    cbn [allChars]. rewrite !inert_high, IH by (done || lia). done.
  - destruct rest as [|b1 [|b2 r2]]; try (rewrite allChars_app, IH by (simpl in *; lia); reflexivity).
    cbn [String.length] in Hlen. destruct Hinv as [Hb1 Hb2].
    destruct ((utf8.byte b0 =? 226) && (utf8.byte b1 =? 128)
              && ((utf8.byte b2 =? 168) || (utf8.byte b2 =? 169))) eqn:Hsep.
    + rewrite allChars_app. cbn [allChars]. rewrite IH by lia.
      apply andb_true_iff in Hsep as [_ Hsep]. apply orb_true_iff in Hsep as [E|E];
        apply Z.eqb_eq in E; rewrite E; done.
    + cbn [allChars]. rewrite !inert_high, IH by (done || lia). done.
  - destruct rest as [|b1 [|b2 [|b3 r3]]];
      try (rewrite allChars_app, IH by (simpl in *; lia); reflexivity).
    cbn [String.length] in Hlen. destruct Hinv as (Hb1 & Hb2 & Hb3).
    cbn [allChars]. rewrite !inert_high, IH by (done || lia). done.
Qed.

Lemma encodeStringBody_inert s : allChars inert (json.encodeStringBody s) = true.
Proof. by apply (encodeStringBody_inert_le (String.length s)). Qed.

Lemma allChars_Join P elems sep :
  Forall (λ e, allChars P e = true) elems → allChars P sep = true →
  allChars P (strings.Join elems sep) = true.
Proof.
  intros Hall Hsep. induction Hall as [|e elems He Hall IH]; [done|].
  rewrite Join_cons. rewrite allChars_app, He. destruct elems as [|e' elems]; [done|].
  by rewrite allChars_app, Hsep, IH.
Qed.

Lemma encodeString_inert s : allChars inert (json.encodeString s) = true.
Proof.
  unfold json.encodeString. by rewrite !allChars_app, encodeStringBody_inert.
Qed.

Lemma marshalRenovateRepository_inert r :
  allChars inert (marshalRenovateRepository r) = true.
Proof.
  unfold marshalRenovateRepository, json.encodeArray.
  rewrite !allChars_app, encodeString_inert.
  destruct (length (BaseBranches r) =? 0)%nat; [done|].
  rewrite !allChars_app, allChars_Join; [done| |done].
  apply Forall_fmap, Forall_forall. intros b _. apply encodeString_inert.
Qed.

(** ** Reconcile *)

(** X1: [Reconcile] always returns, and its first call reads the secret.
    It never sets [Requeue]; it asks for the next run after ten hours or not
    at all.  When it asked for a creation it returns no error and asks for
    the next run.  When it returns an error it asks for no next run, and the
    call after the read of the secret was the directory call. *)
Theorem Reconcile_outcomes (env : Env) (tr : Trace) :
  ∃ res err evs,
    Reconcile env tr
    = Some (res, err,
            tr ++ Call_Client_Get (buildServiceNamespaceName env)
                    (PipelinesAsCodeSecretName env) :: evs)
    ∧ Requeue res = false
    ∧ (RequeueAfter res = 0 ∨ RequeueAfter res = NextReconcile)
    ∧ (Exists (λ e, isCreate e = true) evs →
       RequeueAfter res = NextReconcile ∧ err = None)
    ∧ (∀ e, err = Some e →
         RequeueAfter res = 0
         ∧ ∃ appId key, head evs = Some (Call_GetInstallations appId key)).
Proof.
  destruct (Reconcile_cases env tr) as (res & err & evs & Hrun & Hcase & Herr).
  exists res, err, evs. split; [exact Hrun|].
  destruct Hcase as [[-> Hquiet]|(-> & -> & _)].
  - split; [done|]. split; [by left|]. split.
    + intros Hex. exfalso. apply Exists_exists in Hex as (e & He & Hcreate).
      rewrite Forall_forall in Hquiet. specialize (Hquiet e He). congruence.
    + intros e He. split; [done|].
      destruct (Herr e He) as (appId & key & evs' & -> & _). by exists appId, key.
  - split; [done|]. split; [by right|]. split; [done|]. intros e [=].
Qed.

(** X2: when the secret cannot be read for another reason than its
    absence, [Reconcile] records a warning event and a log entry with the
    error and returns without an error and without a next run; it makes no
    directory call and creates nothing. *)
Theorem Reconcile_secret_unreadable (env : Env) (tr : Trace) (err : error) :
  client_Get env tr (buildServiceNamespaceName env) (PipelinesAsCodeSecretName env)
  = inr err →
  IsNotFound err = false →
  ∃ evs,
    Reconcile env tr = Some (Result_zero, None, tr ++ evs)
    ∧ evs = [Call_Client_Get (buildServiceNamespaceName env) (PipelinesAsCodeSecretName env);
             Call_EventRecorder_Event "Warning" "ErrorReadingPaCSecret" err;
             Call_Log_Error err
               "failed to get Pipelines as Code secret in %s namespace: %w"]
    ∧ Forall quiet evs.
Proof.
  intros Hget Hnf. eexists. split; [by apply Reconcile_read_failure|].
  split; [reflexivity|]. by repeat constructor.
Qed.

Lemma Reconcile_secret_unreadable_witness :
  Reconcile (exampleEnv (inr exampleError) (inl exampleComponents) (λ _ _, None)) []
  = Some (Result_zero, None,
          [Call_Client_Get "build-service" "pipelines-as-code-secret";
           Call_EventRecorder_Event "Warning" "ErrorReadingPaCSecret" exampleError;
           Call_Log_Error exampleError
             "failed to get Pipelines as Code secret in %s namespace: %w"]).
Proof.
  destruct (Reconcile_secret_unreadable
              (exampleEnv (inr exampleError) (inl exampleComponents) (λ _ _, None))
              [] exampleError eq_refl eq_refl) as (evs & Hrun & -> & _).
  exact Hrun.
Defined.

(** X3: when the GitHub App is found configured but the text under the key
    of the application identifier is not a 64-bit decimal number, as when
    the key is missing and the text is empty, [Reconcile] logs the
    conversion error and returns without an error and without a next run;
    it makes no directory call and creates nothing. *)
Theorem Reconcile_app_id_unreadable (env : Env) (tr : Trace) (data : gmap string string)
    (numErr : strconv.NumErr) :
  pacSecretData env tr = Some data →
  IsPaCApplicationConfigured env "github" data = true →
  let githubAppIdStr := default "" (data !! PipelinesAsCode_githubAppIdKey env) in
  (data !! PipelinesAsCode_githubAppIdKey env = None ∧ numErr = strconv.ErrSyntax
   ∨ snd (strconv.ParseInt githubAppIdStr) = Some numErr) →
  ∃ evs,
    Reconcile env tr = Some (Result_zero, None, tr ++ evs)
    ∧ evs = [Call_Client_Get (buildServiceNamespaceName env) (PipelinesAsCodeSecretName env);
             Call_Log_Error (NumError "ParseInt" githubAppIdStr numErr)
               "failed to convert %s to int: %w"]
    ∧ Forall quiet evs.
Proof.
  intros Hdata HisApp githubAppIdStr Hbad.
  assert (snd (strconv.ParseInt githubAppIdStr) = Some numErr) as Hsnd.
  { destruct Hbad as [[Hmiss ->]|H]; [|exact H].
    subst githubAppIdStr. by rewrite Hmiss. }
  destruct (strconv.ParseInt githubAppIdStr) as [v e] eqn:Hparse.
  simpl in Hsnd. subst e.
  eexists. split; [by apply (Reconcile_parse_failure env tr data v numErr)|].
  split; [reflexivity|]. by repeat constructor.
Qed.

Lemma Reconcile_app_id_unreadable_witness :
  let env := withCheck (exampleEnv (inl {[ "github-private-key" := "KEY" ]})
                          (inl exampleComponents) (λ _ _, None))
               (λ _ data, bool_decide (is_Some (data !! "github-private-key"))) in
  Reconcile env []
  = Some (Result_zero, None,
          [Call_Client_Get "build-service" "pipelines-as-code-secret";
           Call_Log_Error (NumError "ParseInt" "" strconv.ErrSyntax)
             "failed to convert %s to int: %w"]).
Proof.
  intros env.
  destruct (Reconcile_app_id_unreadable env [] {[ "github-private-key" := "KEY" ]}
              strconv.ErrSyntax eq_refl eq_refl (or_introl (conj eq_refl eq_refl)))
    as (evs & Hrun & -> & _).
  exact Hrun.
Defined.

(** X4: when the text under the key of the application identifier is the
    decimal form of a 64-bit number [n], the call after the read of the
    secret is the directory call for [n], with the private key of the
    secret, or the empty text when that key is missing. *)
Theorem Reconcile_decimal_app_id (env : Env) (tr : Trace) (data : gmap string string)
    (n : Z) :
  pacSecretData env tr = Some data →
  IsPaCApplicationConfigured env "github" data = true →
  data !! PipelinesAsCode_githubAppIdKey env = Some (fmt.Sprint n) →
  - 2 ^ 63 <= n < 2 ^ 63 →
  ∃ res err evs,
    Reconcile env tr
    = Some (res, err,
            tr ++ [Call_Client_Get (buildServiceNamespaceName env)
                     (PipelinesAsCodeSecretName env);
                   Call_GetInstallations n
                     (default "" (data !! PipelinesAsCode_githubPrivateKey env))] ++ evs).
Proof.
  intros Hdata HisApp Hid Hn.
  assert (strconv.ParseInt (default "" (data !! PipelinesAsCode_githubAppIdKey env))
          = (n, None)) as Hparse.
  { rewrite Hid. by apply ParseInt_Sprint. }
  set (get := Call_Client_Get (buildServiceNamespaceName env) (PipelinesAsCodeSecretName env)).
  set (key := default "" (data !! PipelinesAsCode_githubPrivateKey env)).
  destruct (github_GetInstallations env (tr ++ [get]) n key) as [[insts slug]|err] eqn:Hinst.
  2:{ rewrite (Reconcile_directory_failure env tr data n Hdata HisApp Hparse err Hinst).
      fold get key. exists Result_zero, (Some err), [].
      by rewrite <- app_assoc. }
  destruct (client_List env ((tr ++ [get]) ++ [Call_GetInstallations n key]))
    as [items|err] eqn:Hlist.
  - destruct (Reconcile_batches env tr data n Hdata HisApp Hparse insts slug items
                Hinst Hlist) as (bs & evs & _ & _ & Hrec & _).
    rewrite Hrec. fold get key. eexists _, _, (Call_Client_List :: evs).
    by rewrite <- !app_assoc.
  - rewrite (Reconcile_list_failure env tr data n Hdata HisApp Hparse
               insts slug err Hinst Hlist).
    fold get key. eexists _, _, [Call_Client_List; _].
    by rewrite <- !app_assoc.
Qed.

Lemma Reconcile_decimal_app_id_witness :
  ∃ res err evs,
    Reconcile (exampleEnv (inl exampleSecretData) (inl exampleComponents) (λ _ _, None)) []
    = Some (res, err,
            [Call_Client_Get "build-service" "pipelines-as-code-secret";
             Call_GetInstallations 42 "KEY"] ++ evs).
Proof.
  apply (Reconcile_decimal_app_id
           (exampleEnv (inl exampleSecretData) (inl exampleComponents) (λ _ _, None))
           [] exampleSecretData 42 eq_refl eq_refl eq_refl).
  lia.
Defined.

(** X5: when no repository of any installation is tracked by a component,
    as when there are no components at all, [Reconcile] creates nothing:
    after listing the components it returns, asking for the next run. *)
Theorem Reconcile_nothing_tracked (env : Env) (tr : Trace) (data : gmap string string)
    (githubAppId : Z) (insts : list ApplicationInstallation) (slug : string)
    (items : list Component) :
  pacSecretData env tr = Some data →
  IsPaCApplicationConfigured env "github" data = true →
  strconv.ParseInt (default "" (data !! PipelinesAsCode_githubAppIdKey env))
  = (githubAppId, None) →
  let privateKey := default "" (data !! PipelinesAsCode_githubPrivateKey env) in
  let tr1 := tr ++ [Call_Client_Get (buildServiceNamespaceName env)
                      (PipelinesAsCodeSecretName env)] in
  let tr2 := tr1 ++ [Call_GetInstallations githubAppId privateKey] in
  github_GetInstallations env tr1 githubAppId privateKey = inl (insts, slug) →
  client_List env tr2 = inl items →
  Forall (λ inst, Forall (λ r, buildComponentUrlToBranchMap items !! GetHTMLURL r = None)
                    (Repositories inst)) insts →
  Reconcile env tr
  = Some ({| Requeue := false; RequeueAfter := NextReconcile |}, None,
          tr2 ++ [Call_Client_List]).
Proof.
  intros Hdata HisApp Hparse privateKey tr1 tr2 Hinst Hlist Hnone.
  destruct (Reconcile_batches env tr data githubAppId Hdata HisApp Hparse insts slug items
              Hinst Hlist) as (bs & evs & Hbs & Hrun & Hrec & _).
  rewrite (matchInstallations_untracked _ _ Hnone) in Hbs.
  injection Hbs as <-. injection Hrun as Hrun.
  rewrite <- (app_nil_r (_ ++ [Call_Client_List])) in Hrun at 1.
  apply app_inv_head in Hrun as <-.
  rewrite Hrec. by rewrite app_nil_r.
Qed.

Lemma Reconcile_nothing_tracked_witness :
  Reconcile (exampleEnv (inl exampleSecretData) (inl []) (λ _ _, None)) []
  = Some ({| Requeue := false; RequeueAfter := NextReconcile |}, None,
          [Call_Client_Get "build-service" "pipelines-as-code-secret";
           Call_GetInstallations 42 "KEY"; Call_Client_List]).
Proof.
  apply (Reconcile_nothing_tracked
           (exampleEnv (inl exampleSecretData) (inl []) (λ _ _, None))
           [] exampleSecretData 42 exampleInstallations "slug" []
           eq_refl eq_refl eq_refl eq_refl eq_refl).
  repeat constructor.
Defined.

(** X6: for a positive limit the loop hands out as many batches as the
    number of installations divided by the limit, rounded up. *)
Theorem batches_count {A} (l : list A) (limit : Z) :
  0 < limit →
  ∃ bs, batches limit l = Some bs
        ∧ Z.of_nat (length bs) = (Z.of_nat (length l) + limit - 1) / limit.
Proof.
  intros Hlimit. destruct (batches_spec l limit Hlimit) as (bs & Hbs & Hcat & Hall & Hfull & _).
  exists bs. split; [done|]. rewrite <- Hcat at 1. by apply wellBatched_count.
Qed.

Lemma batches_count_witness :
  ∃ bs, batches 2 [1; 2; 3; 4; 5] = Some bs ∧ Z.of_nat (length bs) = 3.
Proof. apply (batches_count [1; 2; 3; 4; 5] 2). lia. Defined.

(** X7: once the components are listed, the number of secrets [Reconcile]
    asks for is the number of installations to update divided by the limit
    per job, rounded up, the limit being between 1 and 99; and each of
    these secrets holds at least one token and at most as many as the
    limit. *)
Theorem Reconcile_secrets_created (env : Env) (tr : Trace) (data : gmap string string)
    (githubAppId : Z) (insts : list ApplicationInstallation) (slug : string)
    (items : list Component) :
  pacSecretData env tr = Some data →
  IsPaCApplicationConfigured env "github" data = true →
  strconv.ParseInt (default "" (data !! PipelinesAsCode_githubAppIdKey env))
  = (githubAppId, None) →
  let privateKey := default "" (data !! PipelinesAsCode_githubPrivateKey env) in
  let tr1 := tr ++ [Call_Client_Get (buildServiceNamespaceName env)
                      (PipelinesAsCodeSecretName env)] in
  let tr2 := tr1 ++ [Call_GetInstallations githubAppId privateKey] in
  let tr3 := tr2 ++ [Call_Client_List] in
  github_GetInstallations env tr1 githubAppId privateKey = inl (insts, slug) →
  client_List env tr2 = inl items →
  let matched := matchInstallations (buildComponentUrlToBranchMap items) insts in
  let limit := installationPerJob (os_Getenv env) in
  ∃ evs,
    Reconcile env tr
    = Some ({| Requeue := false; RequeueAfter := NextReconcile |}, None, tr3 ++ evs)
    ∧ 1 <= limit <= 99
    ∧ Z.of_nat (length (secretsCreated evs))
      = (Z.of_nat (length matched) + limit - 1) / limit
    ∧ Forall (λ secretTokens, 1 <= Z.of_nat (size secretTokens) <= limit)
        (secretsCreated evs).
Proof.
  intros Hdata HisApp Hparse privateKey tr1 tr2 tr3 Hinst Hlist matched limit.
  pose proof (installationPerJob_range (os_Getenv env)) as Hlimit. fold limit in Hlimit.
  destruct (Reconcile_batches env tr data githubAppId Hdata HisApp Hparse insts slug items
              Hinst Hlist) as (bs & evs & Hbs & _ & Hrec & Hsec).
  fold matched limit in Hbs.
  destruct (batches_spec matched limit) as (bs' & Hbs' & Hcat & Hall & Hfull & _); [lia|].
  rewrite Hbs in Hbs'. injection Hbs' as <-.
  exists evs. split; [exact Hrec|]. split; [lia|]. rewrite Hsec. split.
  - rewrite length_fmap, <- Hcat. apply wellBatched_count; [lia|]. by split.
  - apply Forall_fmap. eapply Forall_impl; [exact Hall|].
    intros b [Hpos Hle]. simpl.
    pose proof (secretTokensOf_size (os_Getenv env) slug b) as Hsize.
    assert (size (secretTokensOf (os_Getenv env) slug b) ≠ 0%nat) as Hne.
    { destruct b as [|x b]; [simpl in Hpos; lia|].
      apply map_size_non_empty_iff. intros Hempty.
      destruct (secretTokensOf_present (os_Getenv env) slug (x :: b) x) as [t Ht];
        [by left|].
      rewrite Hempty in Ht. by rewrite lookup_empty in Ht. }
    lia.
Qed.

Lemma Reconcile_secrets_created_witness :
  let env := exampleEnv (inl exampleSecretData) (inl exampleComponents) (λ _ _, None) in
  ∃ evs,
    Reconcile env []
    = Some ({| Requeue := false; RequeueAfter := NextReconcile |}, None,
            [Call_Client_Get "build-service" "pipelines-as-code-secret";
             Call_GetInstallations 42 "KEY"; Call_Client_List] ++ evs)
    ∧ Z.of_nat (length (secretsCreated evs)) = 2.
Proof.
  intros env.
  destruct (Reconcile_secrets_created env [] exampleSecretData 42 exampleInstallations
              "slug" exampleComponents eq_refl eq_refl eq_refl eq_refl eq_refl)
    as (evs & Hrun & _ & Hcount & _).
  exists evs. split; [exact Hrun|]. rewrite Hcount. reflexivity.
Defined.

(** X8: with a step of zero the loop over a list that is not empty never
    comes to an end, whatever the number of turns allowed; this is the case
    the replacement of a limit of zero by the default keeps away. *)
Theorem batchLoop_zero {A St} fuel (l : list A) (body : list A -> St -> option St) st :
  l ≠ [] → batchLoop fuel 0 0 l body st = None.
Proof.
  intros Hne. revert st. induction fuel as [|fuel IH]; intros st; rewrite batchLoop_unfold.
  - destruct l; [done|]. simpl. done.
  - destruct (Z.ltb_spec 0 (Z.of_nat (length l))) as [_|Hlen].
    + cbv zeta. destruct (body _ st) as [st'|]; [apply IH|done].
    + destruct l; [done|]. simpl in Hlen. lia.
Qed.

Lemma batchLoop_zero_witness :
  batchLoop 1000 0 0 exampleBatch (λ batch acc, Some (acc ++ [batch])) [] = None.
Proof. by apply (batchLoop_zero 1000 exampleBatch). Defined.

(** X9: every installation the matcher returns comes from an installation
    of its input, with the same identifier and token, and holds no more
    repositories than that one; each of its repositories carries the full
    name of a repository of that installation whose HTML URL is a key of
    the map, and as base branches the branch stored under this key, or no
    base branch when that branch is empty: never more than one branch, and
    never the empty one. *)
Theorem matchInstallations_sound (m : gmap string string)
    (insts : list ApplicationInstallation) :
  Forall (λ x,
    ∃ inst, inst ∈ insts ∧ id x = ID inst ∧ token x = Token inst
      ∧ (0 < length (repositories x) <= length (Repositories inst))%nat
      ∧ Forall (λ r,
          ("" ∉ BaseBranches r)
          ∧ (length (BaseBranches r) <= 1)%nat
          ∧ ∃ gr branch, gr ∈ Repositories inst ∧ m !! GetHTMLURL gr = Some branch
              ∧ Repository r = GetFullName gr
              ∧ BaseBranches r = if decide (branch = "") then [] else [branch])
          (repositories x))
    (matchInstallations m insts).
Proof.
  apply Forall_forall. intros x Hx.
  destruct (matchInstallations_elem m insts x Hx) as (inst & Hinst & Hid & Htoken & Hrepos).
  exists inst. split; [done|]. split; [done|]. split; [done|]. split.
  - split.
    + rewrite matchInstallations_filter in Hx.
      apply list_elem_of_fmap in Hx as (inst' & -> & Hin').
      apply list_elem_of_filter in Hin' as [Hex _]. simpl.
      apply Exists_exists in Hex as (gr & Hgr & [branch Hbranch]).
      rewrite matchRepositories_omap.
      assert (toRenovate m gr ∈ (Some <$> omap (toRenovate m) (Repositories inst'))) as Hin.
      { unfold toRenovate at 1. rewrite Hbranch. simpl.
        apply list_elem_of_fmap_2. apply list_elem_of_omap. exists gr. split; [done|].
        unfold toRenovate. by rewrite Hbranch. }
      destruct (omap (toRenovate m) (Repositories inst')); [|simpl; lia].
      by apply elem_of_nil in Hin.
    + rewrite Hrepos. apply matchRepositories_length.
  - apply Forall_forall. intros r Hr. rewrite Hrepos in Hr.
    destruct (matchRepositories_elem m _ r Hr) as (gr & branch & Hgr & Hm & Hname & Hbb).
    split; [|split; [|by exists gr, branch]].
    + rewrite Hbb. destruct (decide (branch = "")) as [->|Hne].
      * apply not_elem_of_nil.
      * intros H%list_elem_of_singleton. by apply Hne.
    + rewrite Hbb. destruct (decide (branch = "")); simpl; lia.
Qed.

(** X10: the matcher works installation by installation and repository by
    repository: on two lists put one after the other it gives what it gives
    on the first followed by what it gives on the second; and with a map
    without keys, as when no component has a git source, it gives
    nothing. *)
Theorem matcher_distributes (m : gmap string string) :
  (∀ l1 l2, matchInstallations m (l1 ++ l2)
            = matchInstallations m l1 ++ matchInstallations m l2)
  ∧ (∀ r1 r2, matchRepositories m (r1 ++ r2)
              = matchRepositories m r1 ++ matchRepositories m r2)
  ∧ (∀ insts, matchInstallations ∅ insts = [])
  ∧ (∀ items, Forall (λ c, Spec_Source_GitSource c = None) items →
              buildComponentUrlToBranchMap items = ∅).
Proof.
  split; [|split; [|split]].
  - intros l1 l2. by rewrite !matchInstallations_filter, filter_app, fmap_app.
  - intros r1 r2. by rewrite !matchRepositories_omap, omap_app.
  - intros insts. apply matchInstallations_untracked.
    apply Forall_forall. intros inst _. apply Forall_forall. intros r _.
    apply lookup_empty.
  - intros items Hall. induction items as [|c items IH] using rev_ind; [done|].
    apply Forall_app in Hall as [Hitems Hc]. apply Forall_cons in Hc as [Hc _].
    rewrite buildComponentUrlToBranchMap_snoc, Hc. by apply IH.
Qed.

(** ** CreateRenovaterJob, generateConfigJS and SetupWithManager *)

(** X11: the calls of [CreateRenovaterJob] are, in order, a beginning of
    this sequence: create the secret, create the config map, create the
    job, log that the job is triggered, write the secret back with the job
    as owner, write the config map back with the job as owner.  It makes no
    call exactly when the batch is empty; and for a batch that is not
    empty it returns no error only after all six calls, both owner
    references having been set. *)
Theorem CreateRenovaterJob_calls_in_order (env : Env) (slug : string)
    (batch : list installationStruct) (tr : Trace) :
  let ns := buildServiceNamespaceName env in
  let name := jobName env tr in
  let secret := newSecret ns name (secretTokensOf (os_Getenv env) slug batch) in
  let configMap := newConfigMap ns name (configmapsOf (os_Getenv env) slug batch) in
  let job := newJob (os_Getenv env) ns name (renovateCmd <$> batch) in
  ∃ res evs m1 m2,
    CreateRenovaterJob env batch slug tr = Some (res, tr ++ evs)
    ∧ evs `prefix_of` sixCalls env slug batch tr m1 m2
    ∧ (evs = [] ↔ batch = [])
    ∧ (batch = [] → res = None)
    ∧ (batch ≠ [] → res = None →
       evs = sixCalls env slug batch tr m1 m2
       ∧ controllerutil_SetOwnerReference env job (Secret_ObjectMeta secret) = inl m1
       ∧ controllerutil_SetOwnerReference env job (ConfigMap_ObjectMeta configMap) = inl m2).
Proof.
  intros ns name secret configMap job.
  destruct (decide (batch = [])) as [->|Hne].
  - exists None, [], (Secret_ObjectMeta secret), (ConfigMap_ObjectMeta configMap).
    split; [by rewrite app_nil_r|]. split; [apply prefix_nil|]. done.
  - destruct (CreateRenovaterJob_prefix env slug batch tr Hne)
      as (res & evs & m1 & m2 & Hrun & Hevs & Hpre & Hnone).
    exists res, evs, m1, m2. split; [done|]. split; [done|].
    split; [done|]. split; [done|]. intros _. exact Hnone.
Qed.

(** X12: for a batch that is not empty, a refused creation ends
    [CreateRenovaterJob] with that error, and nothing is called after it:
    what was created before stays as it is.  When the job is created but
    the owner reference of the secret cannot be set, the error is returned
    after the job was announced, and nothing is written back. *)
Theorem CreateRenovaterJob_stops_at_failure (env : Env) (slug : string)
    (batch : list installationStruct) (tr : Trace) :
  batch ≠ [] →
  let ns := buildServiceNamespaceName env in
  let name := jobName env tr in
  let secret := newSecret ns name (secretTokensOf (os_Getenv env) slug batch) in
  let configMap := newConfigMap ns name (configmapsOf (os_Getenv env) slug batch) in
  let job := newJob (os_Getenv env) ns name (renovateCmd <$> batch) in
  let createSecret := Call_Client_Create (OSecret secret) in
  let createConfigMap := Call_Client_Create (OConfigMap configMap) in
  let createJob := Call_Client_Create (OJob job) in
  let logInfo := Call_Log_Info (fmt.Sprintf "Job %s triggered" [fmt.Str name]) in
  (∀ e, client_Create env tr (OSecret secret) = Some e →
        CreateRenovaterJob env batch slug tr = Some (Some e, tr ++ [createSecret]))
  ∧ (∀ e, client_Create env tr (OSecret secret) = None →
          client_Create env (tr ++ [createSecret]) (OConfigMap configMap) = Some e →
          CreateRenovaterJob env batch slug tr
          = Some (Some e, tr ++ [createSecret; createConfigMap]))
  ∧ (∀ e, client_Create env tr (OSecret secret) = None →
          client_Create env (tr ++ [createSecret]) (OConfigMap configMap) = None →
          client_Create env (tr ++ [createSecret; createConfigMap]) (OJob job) = Some e →
          CreateRenovaterJob env batch slug tr
          = Some (Some e, tr ++ [createSecret; createConfigMap; createJob]))
  ∧ (∀ e, client_Create env tr (OSecret secret) = None →
          client_Create env (tr ++ [createSecret]) (OConfigMap configMap) = None →
          client_Create env (tr ++ [createSecret; createConfigMap]) (OJob job) = None →
          controllerutil_SetOwnerReference env job (Secret_ObjectMeta secret) = inr e →
          CreateRenovaterJob env batch slug tr
          = Some (Some e, tr ++ [createSecret; createConfigMap; createJob; logInfo])).
Proof.
  intros Hne ns name secret configMap job createSecret createConfigMap createJob logInfo.
  pose proof (CreateRenovaterJob_run env slug batch tr Hne) as Hrun. cbv zeta in Hrun.
  fold ns name secret configMap job createSecret createConfigMap createJob logInfo in Hrun.
  split; [|split; [|split]].
  - intros e H1. by rewrite Hrun, H1.
  - intros e H1 H2. by rewrite Hrun, H1, H2.
  - intros e H1 H2 H3. by rewrite Hrun, H1, H2, H3.
  - intros e H1 H2 H3 H4. by rewrite Hrun, H1, H2, H3, H4.
Qed.

Lemma CreateRenovaterJob_stops_at_failure_witness :
  let env := exampleEnv (inl exampleSecretData) (inl exampleComponents) refuseFirstSecret in
  ∃ secret,
    CreateRenovaterJob env exampleBatch "slug" []
    = Some (Some exampleError, [Call_Client_Create (OSecret secret)]).
Proof.
  intros env.
  assert (exampleBatch ≠ []) as Hne by discriminate.
  destruct (CreateRenovaterJob_stops_at_failure env "slug" exampleBatch [] Hne) as [H _].
  eexists. apply H. reflexivity.
Defined.

(** X13: whatever the batch, also with repeated identifiers, the job finds
    what its commands name: the job has one container and one volume, the
    volume is the config map and is the one the container mounts, the
    variables of the container come from the secret, all three objects are
    in the same namespace, and the command of every installation of the
    batch names a variable whose key is in the secret and a file, under the
    mount path, that is in the config map. *)
Theorem renovateCmds_resolve (getenv : string -> string) (slug : string)
    (batch : list installationStruct) (ns name : string) :
  let secret := newSecret ns name (secretTokensOf getenv slug batch) in
  let configMap := newConfigMap ns name (configmapsOf getenv slug batch) in
  let renovateCmds := renovateCmdsOf getenv slug batch in
  let job := newJob getenv ns name renovateCmds in
  ∃ container volume mount source,
    Containers (Template_Spec (Job_Spec job)) = [container]
    ∧ Volumes (Template_Spec (Job_Spec job)) = [volume]
    ∧ Container_VolumeMounts container = [mount]
    ∧ Container_EnvFrom container = [source]
    ∧ VolumeMount_Name mount = Volume_Name volume
    ∧ Volume_ConfigMap volume = Some (meta_Name (ConfigMap_ObjectMeta configMap))
    ∧ EnvFrom_SecretRef source = Some (meta_Name (Secret_ObjectMeta secret))
    ∧ meta_Namespace (Secret_ObjectMeta secret) = meta_Namespace (Job_ObjectMeta job)
    ∧ meta_Namespace (ConfigMap_ObjectMeta configMap) = meta_Namespace (Job_ObjectMeta job)
    ∧ length renovateCmds = length batch
    ∧ ∀ k x, batch !! k = Some x →
        ∃ key file,
          is_Some (Secret_StringData secret !! key)
          ∧ is_Some (ConfigMap_Data configMap !! file)
          ∧ renovateCmds !! k
            = Some ("RENOVATE_TOKEN=$" +:+ EnvFrom_Prefix source +:+ key
                    +:+ " RENOVATE_CONFIG_FILE=" +:+ VolumeMount_MountPath mount
                    +:+ "/" +:+ file +:+ " renovate").
Proof.
  intros secret configMap renovateCmds job.
  eexists _, _, _, _. do 9 (split; [reflexivity|]).
  subst renovateCmds. rewrite renovateCmdsOf_map. split; [apply length_fmap|].
  intros k x Hk.
  exists (fmt.Sprint (id x)), (fmt.Sprint (id x) +:+ ".js").
  assert (x ∈ batch) as Hx by (by eapply list_elem_of_lookup_2).
  split; [by apply secretTokensOf_present|]. split; [by apply configmapsOf_present|].
  rewrite list_lookup_fmap, Hk. cbn [fmap option_fmap option_map]. f_equal.
  unfold renovateCmd. cbn [EnvFrom_Prefix VolumeMount_MountPath].
  by repeat rewrite ?string_app_assoc, ?string_app_cons, ?string_app_nil_l.
Qed.

(** X14: the keys of the secret are the decimal identifiers of the
    installations of the batch and the keys of the config map are these
    followed by [.js]; both hold the same number of entries, at most one
    for every installation and exactly that many when no identifier is
    repeated, and only then; while there is one command for every
    installation. *)
Theorem collectInstallations_keys (getenv : string -> string) (slug : string)
    (batch : list installationStruct) :
  dom (secretTokensOf getenv slug batch)
  = list_to_set ((λ x, fmt.Sprint (id x)) <$> batch)
  ∧ dom (configmapsOf getenv slug batch)
    = list_to_set ((λ x, fmt.Sprint (id x) +:+ ".js") <$> batch)
  ∧ size (configmapsOf getenv slug batch) = size (secretTokensOf getenv slug batch)
  ∧ (size (secretTokensOf getenv slug batch) <= length batch)%nat
  ∧ (size (secretTokensOf getenv slug batch) = length batch ↔ NoDup (id <$> batch))
  ∧ length (renovateCmdsOf getenv slug batch) = length batch.
Proof.
  destruct (collected_sizes getenv slug batch) as (Heq & Hle & Hnd).
  split; [apply secretTokensOf_dom|]. split; [apply configmapsOf_dom|].
  split; [exact Heq|]. split; [exact Hle|]. split.
  - split; [exact Hnd|]. apply secretTokensOf_size_NoDup.
  - rewrite renovateCmdsOf_map. apply length_fmap.
Qed.

(** X15: of the environment of the process, [CreateRenovaterJob] reads
    the pattern and the image only, and an unset or empty variable counts
    as its default: in another environment with the same effective pattern
    and image it does the same. *)
Theorem CreateRenovaterJob_environment (env : Env) (getenv : string -> string)
    (batch : list installationStruct) (slug : string) (tr : Trace) :
  effective (os_Getenv env) RenovateMatchPatternEnvName DefaultRenovateMatchPattern
  = effective getenv RenovateMatchPatternEnvName DefaultRenovateMatchPattern →
  effective (os_Getenv env) RenovateImageEnvName DefaultRenovateImageUrl
  = effective getenv RenovateImageEnvName DefaultRenovateImageUrl →
  CreateRenovaterJob (withGetenv env getenv) batch slug tr
  = CreateRenovaterJob env batch slug tr.
Proof.
  intros Hpattern Himage. unfold CreateRenovaterJob.
  cbn [withGetenv os_Getenv buildServiceNamespaceName time_Now_Unix getRandomString].
  rewrite <- (collectInstallations_env _ _ slug batch Hpattern).
  destruct (length batch =? 0)%nat; [done|].
  unfold bind at 1 3. unfold peek at 1 3. unfold bind at 1 7. unfold peek at 1 2.
  destruct (collectInstallations (os_Getenv env) slug batch)
    as [[secretTokens configmaps] renovateCmds].
  destruct (length renovateCmds =? 0)%nat; [done|].
  rewrite <- (newJob_env _ _ _ _ _ Himage).
  reflexivity.
Qed.

Lemma CreateRenovaterJob_environment_witness :
  let env := exampleEnv (inl exampleSecretData) (inl exampleComponents) (λ _ _, None) in
  CreateRenovaterJob
    (withGetenv env (envWith RenovateMatchPatternEnvName DefaultRenovateMatchPattern))
    exampleBatch "slug" []
  = CreateRenovaterJob env exampleBatch "slug" [].
Proof.
  intros env.
  apply (CreateRenovaterJob_environment env
           (envWith RenovateMatchPatternEnvName DefaultRenovateMatchPattern)
           exampleBatch "slug" []); reflexivity.
Defined.

(** X16: the array of repositories written into the generated document
    holds no byte below 0x20, so none of the control characters from NUL
    to US such as a raw line break or tab, and none of the characters [<],
    [>] and [&], whatever the names of the repositories and branches are.
    Nothing is said here about DEL and the bytes above it. *)
Theorem marshalRepositories_inert (repos : list renovateRepository) :
  allChars inert (marshalRepositories repos) = true.
Proof.
  unfold marshalRepositories, json.encodeArray.
  rewrite !allChars_app. rewrite allChars_Join; [done| |done].
  apply Forall_fmap, Forall_forall. intros r _. apply marshalRenovateRepository_inert.
Qed.

(** X17: the variable set to the decimal form of a number from 1 to 99
    makes this number the limit of installations per job. *)
Theorem installationPerJob_Sprint (n : Z) :
  1 <= n <= 99 →
  installationPerJob (envWith InstallationsPerJobEnvName (fmt.Sprint n)) = n.
Proof.
  intros Hn.
  assert (Forall (λ k, installationPerJob
                         (envWith InstallationsPerJobEnvName (fmt.Sprint k)) = k)
                 (seqZ 1 99)) as Hall.
  { apply (bool_decide_eq_true_1 _). by vm_compute. }
  rewrite Forall_forall in Hall. apply Hall. apply elem_of_seqZ. lia.
Qed.

Lemma installationPerJob_Sprint_witness :
  installationPerJob (envWith InstallationsPerJobEnvName (fmt.Sprint 35)) = 35.
Proof. apply (installationPerJob_Sprint 35). lia. Defined.

(** X18: of the events of the watched kind, only the creation of the
    selector object and the updates that leave an object with the
    namespace and the name of the selector lead to a reconciliation; the
    old object of an update plays no part, and deletions and generic events
    never do. *)
Theorem selectorPredicate_spec (buildServiceNamespaceName buildPipelineSelectorResourceName
    : string) (e : WatchEvent) :
  selectorPredicate buildServiceNamespaceName buildPipelineSelectorResourceName e = true
  ↔ ∃ obj, (e = CreateEvent obj ∨ ∃ old, e = UpdateEvent old obj)
           ∧ GetNamespace obj = buildServiceNamespaceName
           ∧ GetName obj = buildPipelineSelectorResourceName.
Proof.
  split.
  - destruct e as [obj|obj|old obj|obj]; simpl; try done;
      intros [Hns Hname]%andb_true_iff;
      apply bool_decide_eq_true in Hns; apply bool_decide_eq_true in Hname;
      exists obj; (split; [|done]); [by left|right; by exists old].
  - intros (obj & [->|[old ->]] & Hns & Hname); simpl;
      apply andb_true_iff; split; by apply bool_decide_eq_true.
Qed.
